(** * spill_app: the bill extractor's parsing and the cost allocator

    A shallow embedding of the two pieces of logic of the application:

    - [utils/imageProcessing.ts] (two revisions: the one that answers with an
      object [{items, cgst, sgst}], called Schema A below, and the one that
      answers with an array of [{description, price, isTax}], Schema B):
      the function [processBillImage];
    - [app/(tabs)/index.tsx]: the memoised values [totalBillAmount] and
      [costBreakdown] of [SplitShareApp].

    JavaScript numbers are IEEE 754 binary64 values; they are modelled by
    Rocq's primitive floats, whose [+] and [/] are the same operations.  The
    allocator is written once over an interface [Number], instantiated with
    binary64 (what the program runs on) and with the rationals [Qc] (exact
    arithmetic, used to say what the rounding of binary64 perturbs). *)

From Stdlib Require Import ZArith Floats Uint63 QArith Qcanon.
From Stdlib Require Import Ascii String DecimalString DecimalNat DecimalFacts.
From stdpp Require Import gmap strings list fin_maps.

Set Warnings "-inexact-float,-register-all".

(* ===================================================================== *)
(** * Part I: the model *)
(* ===================================================================== *)

(** ** Numbers *)

(** What the allocator needs of a JavaScript number: [0], [+], [/], the
    conversion of an array length, and [ToBoolean] (the test behind [||]). *)
Class Number (num : Type) := {
  nzero : num;
  nadd : num -> num -> num;
  ndiv : num -> num -> num;
  nof_nat : nat -> num;
  nfalsy : num -> bool
}.

(** An array length as a binary64 value (lengths are below 2^32, so the
    conversion is exact). *)
Definition float_of_nat (n : nat) : float :=
  PrimFloat.of_uint63 (Uint63.of_Z (Z.of_nat n)).

(** [ToBoolean] on a number: [+0], [-0] and [NaN] are falsy. *)
Definition float_falsy (x : float) : bool :=
  (PrimFloat.eqb x 0%float || PrimFloat.is_nan x)%bool.

#[export] Instance float_Number : Number float := {
  nzero := 0%float;
  nadd := PrimFloat.add;
  ndiv := PrimFloat.div;
  nof_nat := float_of_nat;
  nfalsy := float_falsy
}.

Definition Qc_of_nat (n : nat) : Qc := Q2Qc (inject_Z (Z.of_nat n)).

Definition Qc_falsy (x : Qc) : bool := if Qc_eq_dec x 0%Qc then true else false.

(** Exact arithmetic. *)
#[export] Instance Qc_Number : Number Qc := {
  nzero := 0%Qc;
  nadd := Qcplus;
  ndiv := Qcdiv;
  nof_nat := Qc_of_nat;
  nfalsy := Qc_falsy
}.

(** Two numbers are the same for [===], or are both [NaN]. *)
Definition same_number (x y : float) : Prop :=
  x = y \/ PrimFloat.eqb x y = true.

(** ** The allocator: [app/(tabs)/index.tsx] *)

(** [interface BillItem]; the objects come from [processBillImage], so at run
    time they may carry the optional [isShared] of its Schema B revision. *)
Record BillItem (num : Type) := {
  item_id : string;
  item_description : string;
  item_price : num;
  item_isShared : option bool
}.
Arguments item_id {num}.
Arguments item_description {num}.
Arguments item_price {num}.
Arguments item_isShared {num}.

Record Participant := {
  participant_id : string;
  participant_name : string
}.

#[export] Instance Participant_eq_dec : EqDecision Participant.
Proof. solve_decision. Defined.

Section Allocator.
Context {num : Type} `{Number num}.

(** [costs[pId] || 0]: a missing entry and a falsy one both read as [0]. *)
Definition orZero (c : option num) : num :=
  match c with
  | Some x => if nfalsy x then nzero else x
  | None => nzero
  end.

(** [costs[pId] = (costs[pId] || 0) + amount].  The keys are ids, which the
    program makes with [Date.now().toString()]: none is the name of a
    property that the object inherits. *)
Definition credit (costs : gmap string num) (pId : string) (amount : num)
  : gmap string num :=
  <[pId := nadd (orZero (costs !! pId)) amount]> costs.

(** [itemAssignments[item.id] || []] (an array is always truthy). *)
Definition assignedTo (itemAssignments : gmap string (list string))
  (item : BillItem num) : list string :=
  default [] (itemAssignments !! item_id item).

(** [extractedItems.reduce((sum, item) => sum + item.price, 0)] *)
Definition totalBillAmount (extractedItems : list (BillItem num)) : num :=
  foldl (fun sum item => nadd sum (item_price item)) nzero extractedItems.

(** The body of [extractedItems.forEach(item => ...)] in [costBreakdown], on
    the pair of the two objects it updates. *)
Definition assignItem (itemAssignments : gmap string (list string))
  (st : gmap string num * gset string) (item : BillItem num)
  : gmap string num * gset string :=
  let assigned := assignedTo itemAssignments item in
  if (0 <? length assigned)%nat then
    let costPerParticipant :=
      ndiv (item_price item) (nof_nat (length assigned)) in
    (foldl (fun costs pId => credit costs pId costPerParticipant)
           st.1 assigned,
     {[item_id item]} ∪ st.2)
  else st.

Definition costBreakdown (extractedItems : list (BillItem num))
  (participants : list Participant)
  (itemAssignments : gmap string (list string)) : gmap string num :=
  let costs0 : gmap string num :=
    foldl (fun costs p => <[participant_id p := nzero]> costs) ∅ participants in
  let '(costs, assignedItemIds) :=
    foldl (assignItem itemAssignments) (costs0, ∅) extractedItems in
  let unassignedItems :=
    List.filter (fun item => bool_decide (item_id item ∉ assignedItemIds))
                extractedItems in
  if ((0 <? length unassignedItems)%nat && (0 <? length participants)%nat)%bool
  then
    let costPerSharedItemPortion :=
      ndiv (totalBillAmount unassignedItems) (nof_nat (length participants)) in
    foldl (fun costs p => credit costs (participant_id p) costPerSharedItemPortion)
          costs participants
  else costs.

End Allocator.

(** The two handlers of [SplitShareApp] that change the lists of the
    mapping, on the state they set. *)

(** [handleRemoveParticipant(id)] *)
Definition handleRemoveParticipant (id : string)
  (state : list Participant * gmap string (list string))
  : list Participant * gmap string (list string) :=
  (List.filter (fun p => negb (String.eqb (participant_id p) id)) state.1,
   List.filter (fun pId => negb (String.eqb pId id)) <$> state.2).

(** [handleItemAssignmentChange(itemId, participantId, checked)] *)
Definition handleItemAssignmentChange (itemId participantId : string)
  (checked : bool) (prev : gmap string (list string))
  : gmap string (list string) :=
  let currentAssignments := default [] (prev !! itemId) in
  if checked then <[itemId := currentAssignments ++ [participantId]]> prev
  else <[itemId := List.filter (fun id => negb (String.eqb id participantId))
                               currentAssignments]> prev.

(** ** JavaScript values, as [JSON.parse] returns them *)

(** Strings hold the text's UTF-16 code units; a unit below 128 is one
    character, a larger one is written as its two or three UTF-8 bytes (so
    the brackets, quotes and letters the program looks for are single
    characters that occur nowhere else). *)
Inductive JSValue :=
| JUndefined
| JNull
| JBool (b : bool)
| JNum (x : float)
| JStr (s : string)
| JArr (elements : list JSValue)
| JObj (properties : list (string * JSValue)).

(** [ToBoolean], the test of [||] and [!]. *)
Definition truthy (v : JSValue) : bool :=
  match v with
  | JUndefined | JNull => false
  | JBool b => b
  | JNum x => negb (float_falsy x)
  | JStr s => negb (String.eqb s "")
  | JArr _ | JObj _ => true
  end.

(** [a || b] *)
Definition js_or (a b : JSValue) : JSValue := if truthy a then a else b.

(** [v === true] *)
Definition strictly_true (v : JSValue) : bool :=
  match v with
  | JBool true => true
  | _ => false
  end.

(** The errors the program throws or lets through, by what they say. *)
Inductive Error :=
| ApiKeyNotConfigured   (* Error('Gemini API key not configured. ...') *)
| FailedToReadImage     (* Error('Failed to read image file') *)
| FailedToParseAsJson   (* Error('Failed to parse model response as JSON') *)
| SyntaxError           (* thrown by JSON.parse *)
| TypeError             (* thrown by the engine: a property of null, a call of a non-function *)
| ExternalError         (* whatever readAsStringAsync, generateContent or text() throws *)
| FailedToProcess (cause : Error).
                        (* Error('Failed to process bill image: ' + cause.message) *)

(** How an evaluation ends.  [Unmodelled] marks the one computation left
    out of the model: [cgst + sgst] with a string, an array or an object as
    operand, which concatenates strings. *)
Inductive Outcome (A : Type) :=
| Return (a : A)
| Throw (e : Error)
| Unmodelled.
Arguments Return {A}.
Arguments Throw {A}.
Arguments Unmodelled {A}.

Definition obind {A B} (m : Outcome A) (f : A -> Outcome B) : Outcome B :=
  match m with
  | Return a => f a
  | Throw e => Throw e
  | Unmodelled => Unmodelled
  end.

#[export] Instance Outcome_ret : MRet Outcome := @Return.
#[export] Instance Outcome_bind : MBind Outcome :=
  fun A B f m => obind m f.

(** The last binding of a key: [JSON.parse] keeps the last of duplicates. *)
Fixpoint lookupLast (name : string) (properties : list (string * JSValue))
  : option JSValue :=
  match properties with
  | [] => None
  | (k, v) :: rest =>
      match lookupLast name rest with
      | Some w => Some w
      | None => if String.eqb k name then Some v else None
      end
  end.

(** [v.name] for the names the program reads ([items], [cgst], [sgst],
    [description], [price], [isTax]), none of which a prototype defines. *)
Definition getProp (v : JSValue) (name : string) : Outcome JSValue :=
  match v with
  | JUndefined | JNull => Throw TypeError
  | JObj properties => Return (default JUndefined (lookupLast name properties))
  | _ => Return JUndefined
  end.

(** [ToNumber] of a value that is no string and no object. *)
Definition toNumber (v : JSValue) : option float :=
  match v with
  | JUndefined => Some nan
  | JNull => Some 0%float
  | JBool b => Some (if b then 1%float else 0%float)
  | JNum x => Some x
  | JStr _ | JArr _ | JObj _ => None
  end.

(** [array.map((item, index) => f(index, item))], stopping at the first
    element whose callback throws. *)
Fixpoint mapWithIndex {A B} (f : nat -> A -> Outcome B) (index : nat)
  (l : list A) : Outcome (list B) :=
  match l with
  | [] => Return []
  | a :: rest =>
      b ← f index a;
      bs ← mapWithIndex f (S index) rest;
      Return (b :: bs)
  end.

(** [n.toString()] of a non-negative integer. *)
Definition toString (n : nat) : string := NilZero.string_of_uint (Nat.to_uint n).

(** ** [+(x.toFixed(2))] *)

(** The integer nearest to [100 * m * 2^e], the larger one of two
    (Number.prototype.toFixed, step "let n be an integer for which
    n / 10^f - x is as close to zero as possible"). *)
Definition nearestHundredths (m : positive) (e : Z) : Z :=
  if (0 <=? e)%Z then 100 * Z.pos m * 2 ^ e
  else (2 * 100 * Z.pos m + 2 ^ (- e)) / 2 ^ (- e + 1).

(** The binary64 value nearest to [n / 100], which is what reading the
    digits of [n] with a point before the last two gives (the engines round
    to nearest whatever the number of digits). *)
Definition hundredths (negative : bool) (n : Z) : float :=
  match n with
  | Z.pos p =>
      SF2Prim (SFdiv prec emax (S754_finite negative p 0)
                               (S754_finite false 100 0))
  | _ => if negative then (-0)%float else 0%float
  end.

(** Below 1e21 [toFixed] prints the digits of the nearest number of
    hundredths, with the sign of [x]; from 1e21 on, and for [NaN] and the
    infinities, it prints the number as [toString] does, which reads back
    as [x]. *)
Definition toFixed2 (x : float) : float :=
  match Prim2SF x with
  | S754_finite s m e =>
      if PrimFloat.leb 1e21%float (PrimFloat.abs x) then x
      else hundredths s (nearestHundredths m e)
  | S754_zero _ => 0%float
  | S754_infinity _ | S754_nan => x
  end.

(** ** The effects of [processBillImage] *)

(** The two instruction texts (the template literals [prompt] of the two
    revisions), by name. *)
Inductive Prompt := PromptItemsAndTaxes | PromptItemsWithTaxFlag.

Inductive Event :=
| ReadFile (uri : string)
    (* FileSystem.readAsStringAsync(uri, {encoding: Base64}) *)
| GenerateContent (prompt : Prompt) (data mimeType : string)
    (* model.generateContent([prompt, {inlineData: {data, mimeType}}]) *)
| ConsoleError (label : string).

(** What the function calls and reads of its surroundings. *)
Record Env := {
  GEMINI_API_KEY : option string;          (* CONFIG.GEMINI_API_KEY *)
  readAsStringAsync : string -> option string;   (* None: the promise rejects *)
  generateContent : Prompt -> string -> string -> option string;
      (* the text of the model's response; None: the call or [text()] throws *)
  JSON_parse : string -> option JSValue    (* None: throws a SyntaxError *)
}.

(** A computation: the events it caused, in order, and how it ended. *)
Definition M (A : Type) : Type := list Event * Outcome A.

#[export] Instance M_ret : MRet M := fun A a => ([], Return a).
#[export] Instance M_bind : MBind M := fun A B f m =>
  match m with
  | (events, Return a) => let '(events', r) := f a in (events ++ events', r)
  | (events, Throw e) => (events, Throw e)
  | (events, Unmodelled) => (events, Unmodelled)
  end.

Definition emit (e : Event) : M unit := ([e], Return tt).
Definition throw {A} (e : Error) : M A := ([], Throw e).
Definition pure {A} (r : Outcome A) : M A := ([], r).

(** [try { body } catch (error) { handler(error) }] *)
Definition tryCatch {A} (body : M A) (handler : Error -> M A) : M A :=
  match body with
  | (events, Throw e) => let '(events', r) := handler e in (events ++ events', r)
  | other => other
  end.

(** ** [utils/imageProcessing.ts], what the two revisions share *)

Section ImageProcessing.
Variable env : Env.

Definition getBase64FromUri (uri : string) : M string :=
  tryCatch
    (_ ← emit (ReadFile uri);
     match readAsStringAsync env uri with
     | Some base64 => mret base64
     | None => throw ExternalError
     end)
    (fun _ =>
     _ ← emit (ConsoleError "Error reading file as base64:");
     throw FailedToReadImage).

(** [!CONFIG.GEMINI_API_KEY || CONFIG.GEMINI_API_KEY === 'YOUR_GEMINI_API_KEY'] *)
Definition apiKeyMissing : bool :=
  match GEMINI_API_KEY env with
  | None => true
  | Some key => (String.eqb key "" || String.eqb key "YOUR_GEMINI_API_KEY")%bool
  end.

(** [model.generateContent(...)], [result.response], [response.text()] *)
Definition askModel (prompt : Prompt) (data mimeType : string) : M string :=
  _ ← emit (GenerateContent prompt data mimeType);
  match generateContent env prompt data mimeType with
  | Some text => mret text
  | None => throw ExternalError
  end.

End ImageProcessing.

(** [c.toLowerCase()] on the letters that can spell an extension. *)
Definition lowerAscii (c : ascii) : ascii :=
  let n := nat_of_ascii c in
  if ((65 <=? n)%nat && (n <=? 90)%nat)%bool then ascii_of_nat (n + 32) else c.

(** [uri.split('.').pop()]: what follows the last point ([acc] is what was
    read since the last point seen). *)
Fixpoint afterLastDot (uri acc : string) : string :=
  match uri with
  | EmptyString => acc
  | String c rest =>
      if Ascii.eqb c "."%char then afterLastDot rest ""
      else afterLastDot rest (String.append acc (String c ""))
  end.

Fixpoint toLowerCase (s : string) : string :=
  match s with
  | EmptyString => EmptyString
  | String c rest => String (lowerAscii c) (toLowerCase rest)
  end.

Fixpoint includes (c : ascii) (s : string) : bool :=
  match s with
  | EmptyString => false
  | String d rest => (Ascii.eqb c d || includes c rest)%bool
  end.

Definition getMimeTypeFromUri (uri : string) : string :=
  if negb (includes "."%char uri) then "image/jpeg"
  else
    let extension := toLowerCase (afterLastDot uri "") in
    if String.eqb extension "png" then "image/png"
    else if String.eqb extension "jpeg" then "image/jpeg"
    else if String.eqb extension "jpg" then "image/jpeg"
    else if String.eqb extension "gif" then "image/gif"
    else if String.eqb extension "webp" then "image/webp"
    else if String.eqb extension "heic" then "image/heic"
    else if String.eqb extension "heif" then "image/heif"
    else "image/jpeg".

(** ** Reading the model's text *)

(** The longest prefix of [s] that ends with [close]: what [[\s\S]*] followed
    by the closing bracket matches, the star taking as much as it can. *)
Fixpoint greedyUpTo (close : ascii) (s : string) : option string :=
  match s with
  | EmptyString => None
  | String c rest =>
      match greedyUpTo close rest with
      | Some body => Some (String c body)
      | None => if Ascii.eqb c close then Some (String c "") else None
      end
  end.

(** [text.match(/\[[\s\S]*\]/)] and [text.match(/\{[\s\S]*\}/)]: the match
    at the leftmost position where one exists, [jsonMatch[0]]. *)
Fixpoint regexMatch (open close : ascii) (text : string) : option string :=
  match text with
  | EmptyString => None
  | String c rest =>
      if Ascii.eqb c open then
        match greedyUpTo close rest with
        | Some body => Some (String c body)
        | None => regexMatch open close rest
        end
      else regexMatch open close rest
  end.

(** [try { parsed = JSON.parse(text) } catch (e) { ... }] *)
Definition parseModelText (parse : string -> option JSValue)
  (open close : ascii) (text : string) : Outcome JSValue :=
  match parse text with
  | Some parsed => Return parsed
  | None =>
      match regexMatch open close text with
      | Some jsonMatch =>
          match parse jsonMatch with
          | Some parsed => Return parsed
          | None => Throw SyntaxError
          end
      | None => Throw FailedToParseAsJson
      end
  end.

(** ** The two revisions of [processBillImage] *)

(** What [processBillImage] returns in [items]; the fields hold what the
    response held, which nothing checks against the declared types. *)
Record ExtractedItem := {
  id : string;
  description : JSValue;
  price : JSValue;
  isShared : option bool       (* None: the object has no such property *)
}.

Module SchemaA.

(** [(cgst + sgst) / items.length], for two values that [|| 0] returned. *)
Definition taxPerItem (cgst sgst : JSValue) (count : nat) : Outcome float :=
  match toNumber cgst, toNumber sgst with
  | Some c, Some s => Return ((c + s) / float_of_nat count)%float
  | _, _ => Unmodelled
  end.

(** [+(item.price + totalTaxPerItem).toFixed(2)]: a string has no [toFixed],
    and an array or an object becomes a string, or fails to. *)
Definition adjustedPrice (price : JSValue) (totalTaxPerItem : float)
  : Outcome float :=
  match toNumber price with
  | Some p => Return (toFixed2 (p + totalTaxPerItem))
  | None => Throw TypeError
  end.

(** From [const items = parsedResponse.items || []] to [billItems]. *)
Definition normalize (parsedResponse : JSValue) : Outcome (list ExtractedItem) :=
  items ← getProp parsedResponse "items";
  let items := js_or items (JArr []) in
  cgst ← getProp parsedResponse "cgst";
  let cgst := js_or cgst (JNum 0) in
  sgst ← getProp parsedResponse "sgst";
  let sgst := js_or sgst (JNum 0) in
  match items with
  | JArr elements =>
      totalTaxPerItem ←
        (if (0 <? length elements)%nat
         then taxPerItem cgst sgst (length elements)
         else Return 0%float);
      mapWithIndex (fun index item =>
        description ← getProp item "description";
        price ← getProp item "price";
        price ← adjustedPrice price totalTaxPerItem;
        Return {| id := toString (index + 1);
                  description := description;
                  price := JNum price;
                  isShared := None |}) 0 elements
  | _ => Throw TypeError    (* [items.map] is not a function *)
  end.

Definition processBillImage (env : Env) (imageUri : string)
  : M (list ExtractedItem) :=
  tryCatch
    (if apiKeyMissing env then throw ApiKeyNotConfigured
     else
       base64Data ← getBase64FromUri env imageUri;
       let mimeType := getMimeTypeFromUri imageUri in
       text ← askModel env PromptItemsAndTaxes base64Data mimeType;
       parsedResponse ← pure (parseModelText (JSON_parse env) "{" "}" text);
       pure (normalize parsedResponse))
    (fun error =>
     _ ← emit (ConsoleError "Error processing bill image:");
     throw (FailedToProcess error)).

End SchemaA.

Module SchemaB.

(** From [parsedItems.map(...)] to [billItems]. *)
Definition normalize (parsedItems : JSValue) : Outcome (list ExtractedItem) :=
  match parsedItems with
  | JArr elements =>
      mapWithIndex (fun index item =>
        description ← getProp item "description";
        price ← getProp item "price";
        isTax ← getProp item "isTax";
        Return {| id := toString (index + 1);
                  description := description;
                  price := price;
                  isShared := Some (strictly_true isTax) |}) 0 elements
  | _ => Throw TypeError    (* [parsedItems.map] is not a function *)
  end.

Definition processBillImage (env : Env) (imageUri : string)
  : M (list ExtractedItem) :=
  tryCatch
    (if apiKeyMissing env then throw ApiKeyNotConfigured
     else
       base64Data ← getBase64FromUri env imageUri;
       let mimeType := getMimeTypeFromUri imageUri in
       text ← askModel env PromptItemsWithTaxFlag base64Data mimeType;
       parsedItems ← pure (parseModelText (JSON_parse env) "[" "]" text);
       pure (normalize parsedItems))
    (fun error =>
     _ ← emit (ConsoleError "Error processing bill image:");
     throw (FailedToProcess error)).

End SchemaB.

(** ** A reading of [JSON.parse]

    [JSON.parse] belongs to the engine, not to the program: the theorems
    below hold for whatever function [JSON_parse env] is.  [jsonParse] is a
    parser of the JSON grammar (ECMA-404), used to run the program on
    concrete texts. *)

Definition dquote : ascii := "034"%char.

Definition isWhitespace (c : ascii) : bool :=
  let n := nat_of_ascii c in
  ((n =? 32) || (n =? 9) || (n =? 10) || (n =? 13))%nat%bool.

Fixpoint skipWhitespace (s : string) : string :=
  match s with
  | String c rest => if isWhitespace c then skipWhitespace rest else s
  | EmptyString => s
  end.

Definition digitValue (c : ascii) : option Z :=
  let n := nat_of_ascii c in
  if ((48 <=? n) && (n <=? 57))%nat%bool then Some (Z.of_nat (n - 48)) else None.

(** The digits at the head of [s], appended to [value]; how many were read. *)
Fixpoint readDigits (s : string) (value : Z) (count : nat) : Z * nat * string :=
  match s with
  | String c rest =>
      match digitValue c with
      | Some d => readDigits rest (10 * value + d) (S count)
      | None => (value, count, s)
      end
  | EmptyString => (value, count, s)
  end.

(** The binary64 value nearest to [digits * 10^exponent]. *)
Definition decimalToFloat (negative : bool) (digits exponent : Z) : float :=
  match digits with
  | Z.pos p =>
      if (400 <? exponent)%Z then (if negative then neg_infinity else infinity)
      else if (exponent <? -400 - Z.log2 digits)%Z
      then (if negative then (-0)%float else 0%float)
      else if (0 <=? exponent)%Z
      then SF2Prim (binary_normalize prec emax
                      ((if negative then -1 else 1) * digits * 10 ^ exponent) 0 false)
      else SF2Prim (SFdiv prec emax (S754_finite negative p 0)
                      (S754_finite false (Z.to_pos (10 ^ (- exponent))) 0))
  | _ => if negative then (-0)%float else 0%float
  end.

(** A number: an optional minus, [0] or digits that do not start with [0],
    an optional point with digits, an optional exponent. *)
Definition parseNumber (s : string) : option (float * string) :=
  let '(negative, s) :=
    match s with
    | String c rest => if Ascii.eqb c "-" then (true, rest) else (false, s)
    | EmptyString => (false, s)
    end in
  match s with
  | String c rest =>
      match digitValue c with
      | Some d =>
          let '(whole, _, s) :=
            if (d =? 0)%Z then (0%Z, 1%nat, rest) else readDigits rest d 1 in
          let fraction :=
            match s with
            | String c rest =>
                if Ascii.eqb c "." then
                  let '(value, count, s') := readDigits rest whole 0 in
                  if (0 <? count)%nat then Some (value, count, s') else None
                else Some (whole, 0%nat, s)
            | EmptyString => Some (whole, 0%nat, s)
            end in
          match fraction with
          | Some (digits, decimals, s) =>
              let exponent :=
                match s with
                | String c rest =>
                    if (Ascii.eqb c "e" || Ascii.eqb c "E")%bool then
                      let '(minus, rest) :=
                        match rest with
                        | String sign rest' =>
                            if Ascii.eqb sign "-" then (true, rest')
                            else if Ascii.eqb sign "+" then (false, rest')
                            else (false, rest)
                        | EmptyString => (false, rest)
                        end in
                      let '(value, count, s') := readDigits rest 0 0 in
                      if (0 <? count)%nat
                      then Some ((if minus then - value else value)%Z, s')
                      else None
                    else Some (0%Z, s)
                | EmptyString => Some (0%Z, s)
                end in
              match exponent with
              | Some (e, s) =>
                  Some (decimalToFloat negative digits (e - Z.of_nat decimals), s)
              | None => None
              end
          | None => None
          end
      | None => None
      end
  | EmptyString => None
  end.

Definition hexValue (c : ascii) : option nat :=
  let n := nat_of_ascii c in
  if ((48 <=? n) && (n <=? 57))%nat%bool then Some (n - 48)
  else if ((97 <=? n) && (n <=? 102))%nat%bool then Some (n - 87)
  else if ((65 <=? n) && (n <=? 70))%nat%bool then Some (n - 55)
  else None.

(** A code unit as characters (see [JSValue]). *)
Definition codeUnit (n : nat) : string :=
  if (n <? 128)%nat then String (ascii_of_nat n) ""
  else if (n <? 2048)%nat then
    String (ascii_of_nat (192 + n / 64))
      (String (ascii_of_nat (128 + n mod 64)) "")
  else
    String (ascii_of_nat (224 + n / 4096))
      (String (ascii_of_nat (128 + (n / 64) mod 64))
         (String (ascii_of_nat (128 + n mod 64)) "")).

Definition simpleEscape (c : ascii) : option ascii :=
  if Ascii.eqb c dquote then Some dquote
  else if Ascii.eqb c "\" then Some "\"%char
  else if Ascii.eqb c "/" then Some "/"%char
  else if Ascii.eqb c "b" then Some "008"%char
  else if Ascii.eqb c "f" then Some "012"%char
  else if Ascii.eqb c "n" then Some "010"%char
  else if Ascii.eqb c "r" then Some "013"%char
  else if Ascii.eqb c "t" then Some "009"%char
  else None.

Definition prepend (prefix : string) (r : option (string * string))
  : option (string * string) :=
  match r with
  | Some (s, rest) => Some (String.append prefix s, rest)
  | None => None
  end.

(** The characters of a string literal after its opening quote, and what
    follows its closing quote. *)
Fixpoint parseStringBody (s : string) : option (string * string) :=
  match s with
  | EmptyString => None
  | String c rest =>
      if Ascii.eqb c dquote then Some ("", rest)
      else if Ascii.eqb c "\" then
        match rest with
        | String e rest1 =>
            if Ascii.eqb e "u" then
              match rest1 with
              | String h1 (String h2 (String h3 (String h4 rest2))) =>
                  match hexValue h1, hexValue h2, hexValue h3, hexValue h4 with
                  | Some a, Some b, Some c, Some d =>
                      prepend (codeUnit (((a * 16 + b) * 16 + c) * 16 + d))
                              (parseStringBody rest2)
                  | _, _, _, _ => None
                  end
              | _ => None
              end
            else
              match simpleEscape e with
              | Some ch => prepend (String ch "") (parseStringBody rest1)
              | None => None
              end
        | EmptyString => None
        end
      else if (nat_of_ascii c <? 32)%nat then None
      else prepend (String c "") (parseStringBody rest)
  end.

(** [s] after the word [word], if it starts with it. *)
Fixpoint afterWord (word s : string) : option string :=
  match word, s with
  | EmptyString, _ => Some s
  | String w word', String c rest =>
      if Ascii.eqb w c then afterWord word' rest else None
  | String _ _, EmptyString => None
  end.

(** A value at the head of [s] and what follows it; the elements of an array
    after the first, and the members of an object after the first. *)
Fixpoint parseValue (fuel : nat) (s : string) : option (JSValue * string) :=
  match fuel with
  | O => None
  | S fuel =>
      match skipWhitespace s with
      | EmptyString => None
      | String c rest =>
          if Ascii.eqb c "n" then
            r ← afterWord "ull" rest; Some (JNull, r)
          else if Ascii.eqb c "t" then
            r ← afterWord "rue" rest; Some (JBool true, r)
          else if Ascii.eqb c "f" then
            r ← afterWord "alse" rest; Some (JBool false, r)
          else if Ascii.eqb c dquote then
            '(str, r) ← parseStringBody rest; Some (JStr str, r)
          else if Ascii.eqb c "[" then
            match skipWhitespace rest with
            | String c' rest' =>
                if Ascii.eqb c' "]" then Some (JArr [], rest')
                else
                  '(first, r) ← parseValue fuel rest;
                  '(others, r) ← parseElements fuel r;
                  Some (JArr (first :: others), r)
            | EmptyString => None
            end
          else if Ascii.eqb c "{" then
            match skipWhitespace rest with
            | String c' rest' =>
                if Ascii.eqb c' "}" then Some (JObj [], rest')
                else
                  '(first, r) ← parseMember fuel rest;
                  '(others, r) ← parseMembers fuel r;
                  Some (JObj (first :: others), r)
            | EmptyString => None
            end
          else
            '(x, r) ← parseNumber (String c rest); Some (JNum x, r)
      end
  end
with parseElements (fuel : nat) (s : string) : option (list JSValue * string) :=
  match fuel with
  | O => None
  | S fuel =>
      match skipWhitespace s with
      | String c rest =>
          if Ascii.eqb c "]" then Some ([], rest)
          else if Ascii.eqb c "," then
            '(element, r) ← parseValue fuel rest;
            '(others, r) ← parseElements fuel r;
            Some (element :: others, r)
          else None
      | EmptyString => None
      end
  end
with parseMember (fuel : nat) (s : string) : option (string * JSValue * string) :=
  match fuel with
  | O => None
  | S fuel =>
      match skipWhitespace s with
      | String c rest =>
          if Ascii.eqb c dquote then
            '(key, r) ← parseStringBody rest;
            match skipWhitespace r with
            | String c' r =>
                if Ascii.eqb c' ":" then
                  '(value, r) ← parseValue fuel r; Some (key, value, r)
                else None
            | EmptyString => None
            end
          else None
      | EmptyString => None
      end
  end
with parseMembers (fuel : nat) (s : string)
  : option (list (string * JSValue) * string) :=
  match fuel with
  | O => None
  | S fuel =>
      match skipWhitespace s with
      | String c rest =>
          if Ascii.eqb c "}" then Some ([], rest)
          else if Ascii.eqb c "," then
            '(member, r) ← parseMember fuel rest;
            '(others, r) ← parseMembers fuel r;
            Some (member :: others, r)
          else None
      | EmptyString => None
      end
  end.

(** The whole text as one value, blanks around it allowed.  No call chain is
    longer than twice the text. *)
Definition jsonParse (text : string) : option JSValue :=
  match parseValue (2 * String.length text + 2) text with
  | Some (v, rest) =>
      match skipWhitespace rest with
      | EmptyString => Some v
      | String _ _ => None
      end
  | None => None
  end.

(** A text written with [']  where JSON has the double quote. *)
Fixpoint quoted (s : string) : string :=
  match s with
  | EmptyString => EmptyString
  | String c rest =>
      String (if Ascii.eqb c "'" then dquote else c) (quoted rest)
  end.

(** ** The allocator, statement by statement

    [costs] and [itemAssignments] are plain objects ([{}], a spread, an
    object literal): a name that they do not hold themselves is looked up in
    [Object.prototype].  [Traced.costBreakdown] follows the statements of
    [costBreakdown] with these lookups, lets an exception end the run, and
    records the divisor of every division that is performed, in order.
    [costBreakdown] above is what it returns when the ids are no names of
    [Object.prototype], as Part II proves. *)

(** What [Object.prototype] holds under a name: a function, with its
    [length], or, under [__proto__], the prototype object itself. *)
Inductive Inherited :=
| InheritedFunction (length : nat)
| InheritedObject.

Definition objectPrototype : list (string * Inherited) :=
  [("constructor", InheritedFunction 1);
   ("__defineGetter__", InheritedFunction 2);
   ("__defineSetter__", InheritedFunction 2);
   ("hasOwnProperty", InheritedFunction 1);
   ("__lookupGetter__", InheritedFunction 1);
   ("__lookupSetter__", InheritedFunction 1);
   ("isPrototypeOf", InheritedFunction 1);
   ("propertyIsEnumerable", InheritedFunction 1);
   ("toString", InheritedFunction 0);
   ("valueOf", InheritedFunction 0);
   ("__proto__", InheritedObject);
   ("toLocaleString", InheritedFunction 0)].

Definition inherited (name : string) : option Inherited :=
  snd <$> List.find (fun entry => String.eqb entry.1 name) objectPrototype.

Module Traced.

(** A run: the divisors of the divisions performed, and how it ended. *)
Definition Run (A : Type) : Type := list nat * Outcome A.

Definition ret {A} (a : A) : Run A := ([], Return a).

Definition andThen {A B} (m : Run A) (f : A -> Run B) : Run B :=
  match m with
  | (divisors, Return a) => let '(divisors', r) := f a in (divisors ++ divisors', r)
  | (divisors, Throw e) => (divisors, Throw e)
  | (divisors, Unmodelled) => (divisors, Unmodelled)
  end.

Definition lift {A} (r : Outcome A) : Run A := ([], r).

Section Traced.
Context {num : Type} `{Number num}.

(** [x / n], of a number and a length *)
Definition divide (x : num) (n : nat) : Run num :=
  ([n], Return (ndiv x (nof_nat n))).

(** [costs[pId] = 0]: the setter of [__proto__] ignores a number. *)
Definition initialise (costs : gmap string num) (pId : string)
  : gmap string num :=
  if String.eqb pId "__proto__" then costs else <[pId := nzero]> costs.

(** [costs[pId] = (costs[pId] || 0) + amount].  Where [costs] has no such
    entry and [Object.prototype] has one, the left operand is a function or
    an object and the sum is a string: left out of the model. *)
Definition credit (costs : gmap string num) (pId : string) (amount : num)
  : Outcome (gmap string num) :=
  match costs !! pId with
  | Some x => Return (<[pId := nadd (orZero (Some x)) amount]> costs)
  | None =>
      match inherited pId with
      | Some _ => Unmodelled
      | None => Return (<[pId := nadd (orZero None) amount]> costs)
      end
  end.

(** [ids.forEach(pId => { costs[pId] = (costs[pId] || 0) + amount })] *)
Fixpoint creditAll (costs : gmap string num) (ids : list string) (amount : num)
  : Outcome (gmap string num) :=
  match ids with
  | [] => Return costs
  | pId :: rest =>
      costs' ← credit costs pId amount;
      creditAll costs' rest amount
  end.

(** The body of [extractedItems.forEach(item => ...)].  An inherited
    function is truthy and has a [length] but no [forEach]: with a positive
    [length] the division is done and the call of [forEach] throws; the
    prototype object has no [length], and [undefined > 0] is false. *)
Definition assignItem (itemAssignments : gmap string (list string))
  (st : gmap string num * gset string) (item : BillItem num)
  : Run (gmap string num * gset string) :=
  match itemAssignments !! item_id item with
  | Some assigned =>
      if (0 <? length assigned)%nat then
        andThen (divide (item_price item) (length assigned))
          (fun costPerParticipant =>
           lift (costs ← creditAll st.1 assigned costPerParticipant;
                 Return (costs, {[item_id item]} ∪ st.2)))
      else ret st
  | None =>
      match inherited (item_id item) with
      | Some (InheritedFunction arity) =>
          if (0 <? arity)%nat then
            andThen (divide (item_price item) arity)
              (fun _ => lift (Throw TypeError))
          else ret st
      | Some InheritedObject => ret st
      | None => ret st
      end
  end.

Fixpoint forEachItem (itemAssignments : gmap string (list string))
  (st : gmap string num * gset string) (items : list (BillItem num))
  : Run (gmap string num * gset string) :=
  match items with
  | [] => ret st
  | item :: rest =>
      andThen (assignItem itemAssignments st item)
        (fun st' => forEachItem itemAssignments st' rest)
  end.

Definition costBreakdown (extractedItems : list (BillItem num))
  (participants : list Participant)
  (itemAssignments : gmap string (list string)) : Run (gmap string num) :=
  let costs0 : gmap string num :=
    foldl (fun costs p => initialise costs (participant_id p)) ∅ participants in
  andThen (forEachItem itemAssignments (costs0, ∅) extractedItems)
    (fun st =>
     let unassignedItems :=
       List.filter (fun item => bool_decide (item_id item ∉ st.2))
                   extractedItems in
     if ((0 <? length unassignedItems)%nat && (0 <? length participants)%nat)%bool
     then
       andThen (divide (totalBillAmount unassignedItems) (length participants))
         (fun costPerSharedItemPortion =>
          lift (creditAll st.1 (participant_id <$> participants)
                  costPerSharedItemPortion))
     else ret st.1).

End Traced.
End Traced.


(** ** The vocabulary of the statements about the allocator *)

(** How many times [u] stands in a list. *)
Definition occurrences (u : string) (l : list string) : nat :=
  length (filter (fun pId => pId = u) l).

Section AllocatorViews.
Context {num : Type} `{Number num}.

(** The running value of one entry of [costs] after the amounts [amounts]
    were credited to it, in order. *)
Definition accumulate (entry : option num) (amounts : list num) : option num :=
  foldl (fun entry amount => Some (nadd (orZero entry) amount)) entry amounts.

(** The entry of [u] once every participant's total was set to [0]. *)
Definition initialEntry (participants : list Participant) (u : string)
  : option num :=
  if bool_decide (u ∈ participant_id <$> participants) then Some nzero else None.

(** The amounts the loop over the items credits to [u]: for each item, one
    quotient for each occurrence of [u] in the item's list. *)
Definition creditsOf (u : string) (items : list (BillItem num))
  (itemAssignments : gmap string (list string)) : list num :=
  flat_map (fun item =>
    let assigned := assignedTo itemAssignments item in
    replicate (occurrences u assigned)
              (ndiv (item_price item) (nof_nat (length assigned)))) items.

(** The items whose list is missing or empty. *)
Definition unassigned (items : list (BillItem num))
  (itemAssignments : gmap string (list string)) : list (BillItem num) :=
  List.filter (fun item => bool_decide (assignedTo itemAssignments item = []))
              items.

(** The amounts the last loop credits to [u]: the equal share of the
    unassigned items, once for each participant whose id is [u]. *)
Definition sharedCreditsOf (u : string) (items : list (BillItem num))
  (participants : list Participant)
  (itemAssignments : gmap string (list string)) : list num :=
  if ((0 <? length (unassigned items itemAssignments))%nat
      && (0 <? length participants)%nat)%bool
  then replicate (occurrences u (participant_id <$> participants))
         (ndiv (totalBillAmount (unassigned items itemAssignments))
               (nof_nat (length participants)))
  else [].

(** Every list of the mapping names participants of the list only. *)
Definition onlyParticipants (participants : list Participant)
  (itemAssignments : gmap string (list string)) : Prop :=
  map_Forall (fun _ assigned =>
    Forall (fun pId => pId ∈ participant_id <$> participants) assigned)
    itemAssignments.


End AllocatorViews.


(** No item has a list with an entry. *)
Definition noneAssigned {num} (items : list (BillItem num))
  (itemAssignments : gmap string (list string)) : bool :=
  forallb (fun item => bool_decide (assignedTo itemAssignments item = [])) items.

(** The sum of the values of a breakdown, in exact arithmetic (where the
    order of the additions does not matter). *)
Definition sumValues (costs : gmap string Qc) : Qc :=
  map_fold (fun _ value sum => (value + sum)%Qc) 0%Qc costs.



(** The assignments with the ids that name no participant removed: what the
    mapping would be if they were absent. *)
Definition withoutUnknown (participants : list Participant)
  (itemAssignments : gmap string (list string)) : gmap string (list string) :=
  filter (fun pId => pId ∈ participant_id <$> participants) <$> itemAssignments.

Definition plainItem {num} (id : string) (price : num) : BillItem num :=
  {| item_id := id; item_description := ""; item_price := price;
     item_isShared := None |}.

Definition sharedItem {num} (id : string) (price : num) : BillItem num :=
  {| item_id := id; item_description := ""; item_price := price;
     item_isShared := Some true |}.

Definition person (id : string) : Participant :=
  {| participant_id := id; participant_name := id |}.

(** ** The vocabulary of the statements about the extractor *)

(** The value of a property of a value that is not [null]: what [getProp]
    returns. *)
Definition propertyOf (v : JSValue) (name : string) : JSValue :=
  match v with
  | JObj properties => default JUndefined (lookupLast name properties)
  | _ => JUndefined
  end.

Definition notNull (v : JSValue) : Prop := v <> JNull /\ v <> JUndefined.

(** The prefixes of a text, the shortest first. *)
Fixpoint prefixes (s : string) : list string :=
  match s with
  | EmptyString => [EmptyString]
  | String c rest => EmptyString :: (String c <$> prefixes rest)
  end.

(** The parsing of the model's text as the specification words it: "search
    the text for the first well-formed bracket-delimited structure (array
    form or object form) and parse that substring".  A structure is a
    substring that starts with an opening bracket and that [parse] accepts;
    the first one starts leftmost. *)
Fixpoint firstWellFormedStructure (parse : string -> option JSValue)
  (text : string) : option string :=
  match text with
  | EmptyString => None
  | String c rest =>
      if (Ascii.eqb c "[" || Ascii.eqb c "{")%bool then
        match List.find (fun s => bool_decide (is_Some (parse s))) (prefixes text) with
        | Some structure => Some structure
        | None => firstWellFormedStructure parse rest
        end
      else firstWellFormedStructure parse rest
  end.

Definition specParseModelText (parse : string -> option JSValue)
  (text : string) : Outcome JSValue :=
  match parse text with
  | Some parsed => Return parsed
  | None =>
      match firstWellFormedStructure parse text with
      | Some structure =>
          match parse structure with
          | Some parsed => Return parsed
          | None => Throw FailedToParseAsJson
          end
      | None => Throw FailedToParseAsJson
      end
  end.

(** An environment whose file and model answer the same to every call. *)
Definition constantEnv (key : option string) (base64 text : option string)
  : Env :=
  {| GEMINI_API_KEY := key;
     readAsStringAsync := fun _ => base64;
     generateContent := fun _ _ _ => text;
     JSON_parse := jsonParse |}.

(** What the outer [catch] makes of the outcome of the body. *)
Definition wrapped {A} (r : Outcome A) : M A :=
  match r with
  | Throw e =>
      ([ConsoleError "Error processing bill image:"], Throw (FailedToProcess e))
  | _ => ([], r)
  end.

(** Closes a decidable goal about concrete data by evaluating its decision. *)
Ltac decided := apply (bool_decide_unpack _); vm_compute; exact I.


(** The ways a run of [processBillImage] ends, stage by stage, with what it
    did until then; [prompt] is the instruction text of the revision. *)
Definition stagedRun (prompt : Prompt) (env : Env) (imageUri : string)
  (run : M (list ExtractedItem)) : Prop :=
  let failed := ConsoleError "Error processing bill image:" in
  let read := ReadFile imageUri in
  (apiKeyMissing env = true
   /\ run = ([failed], Throw (FailedToProcess ApiKeyNotConfigured)))
  \/ (apiKeyMissing env = false
      /\ readAsStringAsync env imageUri = None
      /\ run = ([read; ConsoleError "Error reading file as base64:"; failed],
                Throw (FailedToProcess FailedToReadImage)))
  \/ (exists data,
        let asked := GenerateContent prompt data (getMimeTypeFromUri imageUri) in
        apiKeyMissing env = false
        /\ readAsStringAsync env imageUri = Some data
        /\ ((generateContent env prompt data (getMimeTypeFromUri imageUri) = None
             /\ run = ([read; asked; failed], Throw (FailedToProcess ExternalError)))
            \/ (exists text,
                  generateContent env prompt data (getMimeTypeFromUri imageUri)
                  = Some text
                  /\ ((exists cause,
                         cause ∈ [SyntaxError; FailedToParseAsJson; TypeError]
                         /\ run = ([read; asked; failed],
                                   Throw (FailedToProcess cause)))
                      \/ (exists items, run = ([read; asked], Return items))
                      \/ run = ([read; asked], Unmodelled))))).

(** ** More of [app/(tabs)/index.tsx] *)

(** [costBreakdown[p.id] || 0] for each participant, in order: the numbers
    that [renderSummaryStep] hands to [toFixed(2)].  The screen shows their
    renderings with two decimals ([shownAmounts] below), not these numbers. *)
Definition unroundedAmounts {num} `{Number num} (items : list (BillItem num))
  (participants : list Participant)
  (itemAssignments : gmap string (list string)) : list num :=
  (fun p => orZero (costBreakdown items participants itemAssignments
                      !! participant_id p)) <$> participants.

(** What the summary screen shows for each participant,
    [(costBreakdown[p.id] || 0).toFixed(2)], and for the bill,
    [totalBillAmount.toFixed(2)]: the numbers that the printed digits spell. *)
Definition shownAmounts (items : list (BillItem float))
  (participants : list Participant)
  (itemAssignments : gmap string (list string)) : list float :=
  toFixed2 <$> unroundedAmounts items participants itemAssignments.

Definition shownTotal (items : list (BillItem float)) : float :=
  toFixed2 (totalBillAmount items).

(** The [onPress] of a participant's box on an item's card:
    [handleItemAssignmentChange(item.id, p.id,
       !itemAssignments[item.id]?.includes(p.id))]. *)
Definition toggleAssignment (itemId participantId : string)
  (itemAssignments : gmap string (list string)) : gmap string (list string) :=
  handleItemAssignmentChange itemId participantId
    (negb (bool_decide (participantId ∈ default [] (itemAssignments !! itemId))))
    itemAssignments.

(** The lists of two mappings are the same up to the order of their ids. *)
Definition sameLists (asg asg' : gmap string (list string)) : Prop :=
  forall itemId, default [] (asg !! itemId) ≡ₚ default [] (asg' !! itemId).

(** The sum of a list of exact numbers. *)
Definition sumList (l : list Qc) : Qc := foldr Qcplus 0%Qc l.

(** ** The state of [SplitShareApp] and its other handlers *)

(** What a handler shows or logs, and what the extractor did for it. *)
Inductive UiEvent :=
| FromExtractor (e : Event)
| Alerted (title message : string)       (* Alert.alert(title, message) *)
| Logged (label : string).               (* console.error(label, error) *)

Section AddParticipant.

(** [String.prototype.trim], which belongs to the engine. *)
Variable trim : string -> string.

(** [handleAddParticipant], on the participants and the text of the field;
    [now] is [Date.now().toString()]. *)
Definition handleAddParticipant (now : string)
  (state : list Participant * string) : list Participant * string * list UiEvent :=
  let name := trim state.2 in
  let found :=
    existsb (fun p => String.eqb (participant_name p) name) state.1 in
  if (negb (String.eqb name "") && negb found)%bool then
    (state.1 ++ [{| participant_id := now; participant_name := name |}], "", [])
  else if found then
    (state.1, state.2,
     [Alerted "Participant exists" "This participant name is already added."])
  else (state.1, state.2, []).

End AddParticipant.

Inductive AppStep := upload_participants | assign_items | summary.

(** The [useState] values of the component. *)
Record AppState (num : Type) := {
  st_appStep : AppStep;
  st_billImageUri : option string;
  st_extractedItems : list (BillItem num);
  st_participants : list Participant;
  st_newParticipantName : string;
  st_itemAssignments : gmap string (list string);
  st_isLoading : bool
}.
Arguments st_appStep {num}.
Arguments st_billImageUri {num}.
Arguments st_extractedItems {num}.
Arguments st_participants {num}.
Arguments st_newParticipantName {num}.
Arguments st_itemAssignments {num}.
Arguments st_isLoading {num}.

(** [setIsLoading(b)] *)
Definition setIsLoading {num} (b : bool) (st : AppState num) : AppState num :=
  {| st_appStep := st_appStep st;
     st_billImageUri := st_billImageUri st;
     st_extractedItems := st_extractedItems st;
     st_participants := st_participants st;
     st_newParticipantName := st_newParticipantName st;
     st_itemAssignments := st_itemAssignments st;
     st_isLoading := b |}.

(** [handleStartNewBill] *)
Definition handleStartNewBill {num} (st : AppState num) : AppState num :=
  {| st_appStep := upload_participants;
     st_billImageUri := None;
     st_extractedItems := [];
     st_participants := [];
     st_newParticipantName := "";
     st_itemAssignments := ∅;
     st_isLoading := false |}.

(** [needle] stands at the head of [s]. *)
Fixpoint startsWith (needle s : string) : bool :=
  match needle, s with
  | EmptyString, _ => true
  | String a needle', String b rest => (Ascii.eqb a b && startsWith needle' rest)%bool
  | String _ _, EmptyString => false
  end.

(** [s.includes(needle)] *)
Fixpoint stringIncludes (needle s : string) : bool :=
  (startsWith needle s
   || match s with
      | String _ rest => stringIncludes needle rest
      | EmptyString => false
      end)%bool.

Section ProcessBill.
Context {num : Type}.

(** [processBillImage] as [index.tsx] imports it, a
    [Promise<{ items: BillItem[] }>]: what it did, and the error it threw or
    its items ([None]: [result] or [result.items] is falsy). *)
Variable processImage
  : string -> list Event * (Error + option (list (BillItem num))).

(** The message of an error that the program does not make itself. *)
Variable engineMessage : Error -> string.

(** The k-th reading of [Date.now().toString()] in a handler. *)
Variable dateNow : nat -> string.

(** [error.message] *)
Fixpoint errorMessage (e : Error) : string :=
  match e with
  | ApiKeyNotConfigured =>
      "Gemini API key not configured. Please add your API key in the config file."
  | FailedToReadImage => "Failed to read image file"
  | FailedToParseAsJson => "Failed to parse model response as JSON"
  | FailedToProcess cause =>
      String.append "Failed to process bill image: " (errorMessage cause)
  | other => engineMessage other
  end.

(** [result.items.map(item => ({ ...item, id: item.id || Date.now().toString() }))],
    [k] readings of the clock having been taken. *)
Fixpoint withIds (k : nat) (items : list (BillItem num)) : list (BillItem num) :=
  match items with
  | [] => []
  | it :: rest =>
      if String.eqb (item_id it) "" then
        {| item_id := dateNow k;
           item_description := item_description it;
           item_price := item_price it;
           item_isShared := item_isShared it |} :: withIds (S k) rest
      else it :: withIds k rest
  end.

(** [itemsWithIds.forEach(item => initialAssignments[item.id] = [])] *)
Definition initialAssignments (itemsWithIds : list (BillItem num))
  : gmap string (list string) :=
  foldl (fun assignments it => <[item_id it := []]> assignments) ∅ itemsWithIds.

(** The [catch] and the [finally] of [handleProcessBill]. *)
Definition processFailed (message : string) (st : AppState num)
  : AppState num * list UiEvent :=
  (setIsLoading false st,
   [Logged "Error extracting bill items:";
    if stringIncludes "API key not configured" message
    then Alerted "Configuration Error"
                 "Please set up your Gemini API key in the config file."
    else Alerted "Error" (String.append "Failed to process bill: " message)]).

(** What [handleProcessBill] does once [extractBillItems] has settled, on the
    state of that moment. *)
Definition processSettled
  (settled : list Event * (Error + option (list (BillItem num))))
  (st : AppState num) : AppState num * list UiEvent :=
  let events := FromExtractor <$> settled.1 in
  match settled.2 with
  | inr (Some items) =>
      let itemsWithIds := withIds 0 items in
      ({| st_appStep := assign_items;
          st_billImageUri := st_billImageUri st;
          st_extractedItems := itemsWithIds;
          st_participants := st_participants st;
          st_newParticipantName := st_newParticipantName st;
          st_itemAssignments := initialAssignments itemsWithIds;
          st_isLoading := false |},
       events ++ [Alerted "Success" "Bill items extracted successfully."])
  | inr None =>
      let '(st', shown) :=
        processFailed "Failed to extract items or no items found." st in
      (st', events ++ shown)
  | inl e =>
      let '(st', shown) := processFailed (errorMessage e) st in
      (st', events ++ Logged "Error in extractBillItems:" :: shown)
  end.

(** [handleProcessBill], run from the press of the button to the end with
    no other handler in between. *)
Definition handleProcessBill (st : AppState num) : AppState num * list UiEvent :=
  match st_billImageUri st with
  | None => (st, [Alerted "Error" "Please upload a bill image."])
  | Some billImageUri =>
      if String.eqb billImageUri "" then
        (st, [Alerted "Error" "Please upload a bill image."])
      else if (length (st_participants st) =? 0)%nat then
        (st, [Alerted "Error" "Please add at least one participant."])
      else processSettled (processImage billImageUri) (setIsLoading true st)
  end.

End ProcessBill.

(** ** The component as a machine

    One step is one run of a handler that the rendering of the state makes
    reachable: a button that is not rendered or is [disabled] is not
    pressed.  Every event finds the component rendered from the state it has
    then.  [handleProcessBill] is two steps, the press up to its [await] and
    the rest once the extraction has settled, and the other handlers may run
    in between; the extraction may settle with any result, and the picker of
    the image may return at any time. *)

#[export] Instance AppStep_eq_dec : EqDecision AppStep.
Proof. solve_decision. Defined.

(** The state of the first rendering: the arguments of the [useState] calls. *)
Definition initialState {num} : AppState num :=
  {| st_appStep := upload_participants;
     st_billImageUri := None;
     st_extractedItems := [];
     st_participants := [];
     st_newParticipantName := "";
     st_itemAssignments := ∅;
     st_isLoading := false |}.

(** [setAppStep(step)] *)
Definition setAppStep {num} (step : AppStep) (st : AppState num) : AppState num :=
  {| st_appStep := step;
     st_billImageUri := st_billImageUri st;
     st_extractedItems := st_extractedItems st;
     st_participants := st_participants st;
     st_newParticipantName := st_newParticipantName st;
     st_itemAssignments := st_itemAssignments st;
     st_isLoading := st_isLoading st |}.

(** [setBillImageUri(uri)] *)
Definition setBillImageUri {num} (uri : option string) (st : AppState num)
  : AppState num :=
  {| st_appStep := st_appStep st;
     st_billImageUri := uri;
     st_extractedItems := st_extractedItems st;
     st_participants := st_participants st;
     st_newParticipantName := st_newParticipantName st;
     st_itemAssignments := st_itemAssignments st;
     st_isLoading := st_isLoading st |}.

(** [setParticipants(participants)] *)
Definition setParticipants {num} (participants : list Participant)
  (st : AppState num) : AppState num :=
  {| st_appStep := st_appStep st;
     st_billImageUri := st_billImageUri st;
     st_extractedItems := st_extractedItems st;
     st_participants := participants;
     st_newParticipantName := st_newParticipantName st;
     st_itemAssignments := st_itemAssignments st;
     st_isLoading := st_isLoading st |}.

(** [setNewParticipantName(text)] *)
Definition setNewParticipantName {num} (text : string) (st : AppState num)
  : AppState num :=
  {| st_appStep := st_appStep st;
     st_billImageUri := st_billImageUri st;
     st_extractedItems := st_extractedItems st;
     st_participants := st_participants st;
     st_newParticipantName := text;
     st_itemAssignments := st_itemAssignments st;
     st_isLoading := st_isLoading st |}.

(** [setItemAssignments(assignments)] *)
Definition setItemAssignments {num} (assignments : gmap string (list string))
  (st : AppState num) : AppState num :=
  {| st_appStep := st_appStep st;
     st_billImageUri := st_billImageUri st;
     st_extractedItems := st_extractedItems st;
     st_participants := st_participants st;
     st_newParticipantName := st_newParticipantName st;
     st_itemAssignments := assignments;
     st_isLoading := st_isLoading st |}.

Inductive Action (num : Type) :=
| ImagePicked (uri : string)
    (* handleImageUpload, handleCameraCapture: the picker gave an asset *)
| TextChanged (text : string)                 (* onChangeText *)
| AddPressed (now : string)                   (* handleAddParticipant *)
| RemovePressed (id : string)                 (* handleRemoveParticipant(p.id) *)
| ProcessPressed                              (* handleProcessBill, to its await *)
| ExtractionSettled (dateNow : nat -> string)
    (settled : list Event * (Error + option (list (BillItem num))))
                                              (* handleProcessBill, the rest *)
| BoxPressed (itemId participantId : string)  (* the box of p on the card of item *)
| BackPressed                                 (* Back to Upload *)
| ShowSummaryPressed                          (* Show Summary *)
| StartNewBillPressed.                        (* handleStartNewBill *)
Arguments ImagePicked {num}.
Arguments TextChanged {num}.
Arguments AddPressed {num}.
Arguments RemovePressed {num}.
Arguments ProcessPressed {num}.
Arguments ExtractionSettled {num}.
Arguments BoxPressed {num}.
Arguments BackPressed {num}.
Arguments ShowSummaryPressed {num}.
Arguments StartNewBillPressed {num}.

Section Machine.
Context {num : Type}.
Variable trim : string -> string.
Variable engineMessage : Error -> string.

(** [!billImageUri] *)
Definition noImage (st : AppState num) : bool :=
  match st_billImageUri st with
  | None => true
  | Some uri => String.eqb uri ""
  end.

(** The state after the action, when the rendering of [st] lets it happen. *)
Definition perform (a : Action num) (st : AppState num) : option (AppState num) :=
  let at_step step := bool_decide (st_appStep st = step) in
  match a with
  | ImagePicked uri => Some (setBillImageUri (Some uri) st)
  | TextChanged text =>
      if at_step upload_participants then Some (setNewParticipantName text st)
      else None
  | AddPressed now =>
      if at_step upload_participants then
        let result :=
          handleAddParticipant trim now
            (st_participants st, st_newParticipantName st) in
        Some (setNewParticipantName result.1.2 (setParticipants result.1.1 st))
      else None
  | RemovePressed id =>
      if (at_step upload_participants
          && bool_decide (id ∈ participant_id <$> st_participants st))%bool then
        let result :=
          handleRemoveParticipant id (st_participants st, st_itemAssignments st) in
        Some (setItemAssignments result.2 (setParticipants result.1 st))
      else None
  | ProcessPressed =>
      if (at_step upload_participants
          && negb (st_isLoading st || noImage st
                   || (length (st_participants st) =? 0)%nat))%bool then
        Some (setIsLoading true st)
      else None
  | ExtractionSettled dateNow settled =>
      if st_isLoading st then
        Some (processSettled engineMessage dateNow settled st).1
      else None
  | BoxPressed itemId participantId =>
      if (at_step assign_items
          && bool_decide (itemId ∈ item_id <$> st_extractedItems st)
          && bool_decide (participantId ∈ participant_id <$> st_participants st))%bool
      then
        Some (setItemAssignments
                (toggleAssignment itemId participantId (st_itemAssignments st)) st)
      else None
  | BackPressed =>
      if at_step assign_items then Some (setAppStep upload_participants st)
      else None
  | ShowSummaryPressed =>
      if (at_step assign_items
          && negb ((length (st_extractedItems st) =? 0)%nat
                   || (length (st_participants st) =? 0)%nat))%bool then
        Some (setAppStep summary st)
      else None
  | StartNewBillPressed =>
      if at_step summary then Some (handleStartNewBill st) else None
  end.

(** The actions of a list, one after the other. *)
Fixpoint performAll (actions : list (Action num)) (st : AppState num)
  : option (AppState num) :=
  match actions with
  | [] => Some st
  | a :: rest =>
      match perform a st with
      | Some st' => performAll rest st'
      | None => None
      end
  end.

Inductive reachable : AppState num -> Prop :=
| reachable_initial : reachable initialState
| reachable_step st a st' :
    reachable st -> perform a st = Some st' -> reachable st'.

(** What the handlers keep of the state. *)
Definition consistent (st : AppState num) : Prop :=
  onlyParticipants (st_participants st) (st_itemAssignments st)
  /\ map_Forall (fun _ assigned => NoDup assigned) (st_itemAssignments st)
  /\ dom (st_itemAssignments st) = list_to_set (item_id <$> st_extractedItems st)
  /\ NoDup (participant_name <$> st_participants st)
  /\ ("" ∉ participant_name <$> st_participants st)
  /\ (st_isLoading st = true -> st_appStep st = upload_participants)
  /\ (st_appStep st = summary ->
      st_extractedItems st <> [] /\ st_participants st <> []).

End Machine.

(** Reading a field of a state that a setter has made. *)
Ltac fields :=
  cbn [st_appStep st_billImageUri st_extractedItems st_participants
       st_newParticipantName st_itemAssignments st_isLoading
       setAppStep setBillImageUri setParticipants setNewParticipantName
       setItemAssignments setIsLoading handleStartNewBill fst snd].

(* ===================================================================== *)
(** * Part II: the properties *)
(* ===================================================================== *)

(** ** The allocator, one key at a time *)

Section AllocatorFacts.
Context {num : Type} `{Number num}.
Implicit Types (costs : gmap string num) (items : list (BillItem num))
  (participants : list Participant) (asg : gmap string (list string)).

Lemma accumulate_app entry (a b : list num) :
  accumulate entry (a ++ b) = accumulate (accumulate entry a) b.
Proof. apply foldl_app. Qed.

Lemma init_lookup participants costs u :
  foldl (fun costs p => <[participant_id p := nzero]> costs) costs participants !! u
  = if bool_decide (u ∈ participant_id <$> participants) then Some nzero
    else costs !! u.
Proof.
  revert costs. induction participants as [|p ps IH]; intros costs.
  - rewrite fmap_nil. cbn [foldl].
    rewrite bool_decide_eq_false_2; [done | apply not_elem_of_nil].
  - rewrite fmap_cons. cbn [foldl]. rewrite IH. destruct (decide (u = participant_id p)) as [->|Hne].
    + rewrite lookup_insert_eq.
      rewrite (bool_decide_eq_true_2 (_ ∈ _ :: _)); [|left].
      by case_bool_decide.
    + rewrite lookup_insert_ne by done.
      case_bool_decide as Hin.
      * rewrite bool_decide_eq_true_2; [done | by right].
      * rewrite bool_decide_eq_false_2; [done|].
        intros [?|?]%elem_of_cons; done.
Qed.

Lemma credit_lookup costs pId amount u :
  credit costs pId amount !! u
  = if decide (pId = u) then Some (nadd (orZero (costs !! u)) amount)
    else costs !! u.
Proof.
  unfold credit. rewrite lookup_insert. case_decide; by subst.
Qed.

(** Crediting the same amount to each key of a list, seen from one key. *)
Lemma credit_all_lookup {A} (key : A -> string) (l : list A) costs amount u :
  foldl (fun costs a => credit costs (key a) amount) costs l !! u
  = accumulate (costs !! u) (replicate (occurrences u (key <$> l)) amount).
Proof.
  revert costs. induction l as [|a l IH]; intros costs; [done|].
  cbn [foldl]. rewrite IH, credit_lookup, fmap_cons.
  unfold occurrences. rewrite filter_cons.
  case_decide; done.
Qed.

(** The loop over the items, seen from one key, and the ids it collects. *)
Lemma assignItems_lookup asg items costs ids u :
  (foldl (assignItem asg) (costs, ids) items).1 !! u
  = accumulate (costs !! u) (creditsOf u items asg).
Proof.
  revert costs ids. induction items as [|item items IH]; intros costs ids; [done|].
  cbn [foldl]. unfold creditsOf. cbn [flat_map]. fold (creditsOf u items asg).
  rewrite accumulate_app. unfold assignItem at 2.
  destruct (assignedTo asg item) as [|pId assigned] eqn:Hl.
  - cbn. apply IH.
  - cbn [length Nat.ltb Nat.leb fst snd]. rewrite IH.
    by rewrite (credit_all_lookup (fun pId => pId)), list_fmap_id.
Qed.

Lemma assignItems_ids asg items costs ids itemId :
  itemId ∈ (foldl (assignItem asg) (costs, ids) items).2
  <-> itemId ∈ ids
      \/ exists item, item ∈ items /\ item_id item = itemId
                      /\ assignedTo asg item <> [].
Proof.
  revert costs ids. induction items as [|item items IH]; intros costs ids.
  - cbn. split; [by left | intros [?|(? & []%elem_of_nil & _)]; done].
  - cbn [foldl]. unfold assignItem at 2.
    destruct (assignedTo asg item) as [|pId assigned] eqn:Hl.
    + cbn. rewrite IH. clear IH. split.
      * intros [?|(i & ? & ? & ?)]; [by left|].
        right. exists i. split; [by right|done].
      * intros [?|(i & [->|?]%elem_of_cons & ? & ?)]; [by left|congruence|].
        right. by exists i.
    + cbn [length Nat.ltb Nat.leb fst snd]. rewrite IH. clear IH. split.
      * intros [[->%elem_of_singleton|?]%elem_of_union|(i & ? & ? & ?)].
        -- right. exists item. split; [left|]. by rewrite Hl.
        -- by left.
        -- right. exists i. split; [by right|done].
      * intros [?|(i & [->|?]%elem_of_cons & ? & ?)].
        -- left. apply elem_of_union. by right.
        -- left. apply elem_of_union. left. by apply elem_of_singleton.
        -- right. by exists i.
Qed.

(** The items that the filter on the collected ids keeps are those without
    a list: an id is collected because of its own list. *)
Lemma unassigned_filter asg items costs :
  List.filter
    (fun item => bool_decide
       (item_id item ∉ (foldl (assignItem asg) (costs, ∅) items).2)) items
  = unassigned items asg.
Proof.
  unfold unassigned. apply List.filter_ext_in. intros item Hin.
  apply bool_decide_ext. rewrite assignItems_ids. split.
  - intros Hno. destruct (assignedTo asg item) eqn:Hl; [done|].
    exfalso. apply Hno. right. exists item.
    split; [by apply list_elem_of_In|]. by rewrite Hl.
  - intros Hl [[]%elem_of_empty|(i & _ & Hid & Hne)].
    apply Hne. unfold assignedTo in *. by rewrite Hid.
Qed.

(** [costBreakdown], one key at a time. *)
Lemma costBreakdown_lookup items participants asg u :
  costBreakdown items participants asg !! u
  = accumulate (initialEntry participants u)
      (creditsOf u items asg ++ sharedCreditsOf u items participants asg).
Proof.
  unfold costBreakdown.
  destruct (foldl (assignItem asg) _ items) as [costs ids] eqn:Hloop.
  pose proof (assignItems_lookup asg items
    (foldl (fun costs p => <[participant_id p := nzero]> costs) ∅ participants)
    ∅ u) as Hcosts.
  pose proof (unassigned_filter asg items
    (foldl (fun costs p => <[participant_id p := nzero]> costs) ∅ participants))
    as Hun.
  rewrite Hloop in Hcosts, Hun. cbn [fst snd] in Hcosts, Hun.
  rewrite Hun, accumulate_app. unfold sharedCreditsOf.
  rewrite init_lookup, lookup_empty in Hcosts. fold (initialEntry participants u) in Hcosts.
  destruct (_ && _).
  - by rewrite credit_all_lookup, Hcosts.
  - by rewrite Hcosts.
Qed.

End AllocatorFacts.

Section AllocatorCases.
Context {num : Type} `{Number num}.
Implicit Types (costs : gmap string num) (items : list (BillItem num))
  (participants : list Participant) (asg : gmap string (list string)).

Lemma accumulate_replicate_is_Some entry n (amount : num) :
  (0 < n)%nat -> is_Some (accumulate entry (replicate n amount)).
Proof.
  intros Hn. destruct n as [|n]; [lia|]. clear Hn.
  rewrite replicate_S_end. unfold accumulate. rewrite foldl_app. by eexists.
Qed.

Lemma occurrences_elem_of u (l : list string) :
  u ∈ l <-> (0 < occurrences u l)%nat.
Proof.
  unfold occurrences. split.
  - intros Hin. assert (u ∈ filter (fun pId => pId = u) l) as Hf
      by by apply list_elem_of_filter.
    destruct (filter _ l); [by apply elem_of_nil in Hf | cbn; lia].
  - intros Hlen. destruct (filter (fun pId => pId = u) l) as [|x l'] eqn:Hf;
      [cbn in Hlen; lia|].
    assert (x ∈ filter (fun pId => pId = u) l) as Hx by (rewrite Hf; left).
    apply list_elem_of_filter in Hx as [-> ?]. done.
Qed.

Lemma occurrences_not_elem_of u (l : list string) :
  u ∉ l -> occurrences u l = 0%nat.
Proof.
  intros Hn. destruct (occurrences u l) eqn:E; [done|].
  exfalso. apply Hn, occurrences_elem_of. lia.
Qed.

(** An id that stands once in a list without repetition. *)
Lemma occurrences_NoDup u (l : list string) :
  NoDup l -> u ∈ l -> occurrences u l = 1%nat.
Proof.
  unfold occurrences. induction 1 as [|x l Hx Hnd IH]; intros Hin.
  - by apply elem_of_nil in Hin.
  - rewrite filter_cons. case_decide as Hxu.
    + subst x. cbn. f_equal. by apply (occurrences_not_elem_of u l).
    + apply elem_of_cons in Hin as [->|Hin]; [done|]. by apply IH.
Qed.

Lemma accumulate_is_Some_app entry (a b : list num) :
  is_Some (accumulate entry a) -> is_Some (accumulate entry (a ++ b)).
Proof.
  rewrite accumulate_app. generalize (accumulate entry a) as e. clear.
  induction b as [|x b IH]; intros e He; [done|]. cbn. apply IH. by eexists.
Qed.

Lemma accumulate_is_Some_app_r entry (a b : list num) :
  is_Some (accumulate None b) -> is_Some (accumulate entry (a ++ b)).
Proof.
  rewrite accumulate_app. generalize (accumulate entry a) as e.
  destruct b as [|x b]; intros e Hb; [by destruct Hb|].
  cbn. apply (accumulate_is_Some_app _ [] b). by eexists.
Qed.

Lemma creditsOf_is_Some u items asg it :
  it ∈ items -> u ∈ assignedTo asg it ->
  is_Some (accumulate None (creditsOf u items asg)).
Proof.
  intros Hin Hu. induction items as [|i items IH]; [by apply elem_of_nil in Hin|].
  unfold creditsOf. cbn [flat_map]. fold (creditsOf u items asg).
  apply elem_of_cons in Hin as [<-|Hin].
  - apply accumulate_is_Some_app, accumulate_replicate_is_Some.
    by apply occurrences_elem_of.
  - apply accumulate_is_Some_app_r. by apply IH.
Qed.

Lemma noneAssigned_spec items asg :
  noneAssigned items asg = true <->
  forall it, it ∈ items -> assignedTo asg it = [].
Proof.
  unfold noneAssigned. rewrite forallb_forall. split.
  - intros Hall it Hin. apply list_elem_of_In in Hin.
    specialize (Hall it Hin). by apply bool_decide_eq_true in Hall.
  - intros Hall it Hin. apply bool_decide_eq_true, Hall.
    by apply list_elem_of_In.
Qed.

Lemma creditsOf_noneAssigned u items asg :
  noneAssigned items asg = true -> creditsOf u items asg = [].
Proof.
  rewrite noneAssigned_spec. intros Hall.
  induction items as [|i items IH]; [done|].
  unfold creditsOf. cbn [flat_map]. fold (creditsOf u items asg).
  rewrite IH by (intros; apply Hall; by right).
  rewrite (Hall i) by left. done.
Qed.

Lemma unassigned_noneAssigned items asg :
  noneAssigned items asg = true -> unassigned items asg = items.
Proof.
  rewrite noneAssigned_spec. intros Hall. unfold unassigned.
  induction items as [|i items IH]; [done|]. cbn.
  rewrite bool_decide_eq_true_2 by (apply Hall; left).
  f_equal. apply IH. intros; apply Hall; by right.
Qed.

(** With no participant, the lists that name participants only are empty. *)
Lemma onlyParticipants_nil asg items :
  onlyParticipants [] asg -> noneAssigned items asg = true.
Proof.
  intros Honly. apply noneAssigned_spec. intros it _. unfold assignedTo.
  destruct (asg !! item_id it) as [[|pId l]|] eqn:Hl; [done| |done].
  specialize (Honly _ _ Hl). cbn in Honly. apply Forall_cons_1 in Honly as [Hp _].
  by apply elem_of_nil in Hp.
Qed.

(** The views do not see the division where the divisor is not [0]. *)
Lemma costBreakdown_no_participants items asg :
  onlyParticipants [] asg -> costBreakdown items [] asg = ∅.
Proof.
  intros Honly. apply map_eq. intros u.
  rewrite costBreakdown_lookup, lookup_empty.
  rewrite creditsOf_noneAssigned by by apply onlyParticipants_nil.
  unfold sharedCreditsOf. cbn [length Nat.ltb Nat.leb]. rewrite andb_false_r.
  unfold initialEntry. rewrite fmap_nil.
  rewrite bool_decide_eq_false_2; [done | apply not_elem_of_nil].
Qed.


(** The allocator does not read [isShared]. *)
Lemma costBreakdown_ignores_isShared (flag : option bool) items participants asg :
  costBreakdown
    ((fun it => {| item_id := item_id it;
                   item_description := item_description it;
                   item_price := item_price it;
                   item_isShared := flag |}) <$> items) participants asg
  = costBreakdown items participants asg.
Proof.
  set (mark := fun it : BillItem num => _).
  assert (forall l, totalBillAmount (mark <$> l) = totalBillAmount l) as Htotal.
  { intros l. unfold totalBillAmount. generalize nzero.
    induction l as [|i l IH]; intros z; [done|]. cbn. apply IH. }
  assert (forall l, unassigned (mark <$> l) asg = mark <$> unassigned l asg) as Hun.
  { induction l as [|i l IH]; [done|]. unfold unassigned in *. cbn.
    change (assignedTo asg (mark i)) with (assignedTo asg i).
    case_bool_decide; cbn; by rewrite IH. }
  apply map_eq. intros u. rewrite !costBreakdown_lookup. f_equal. f_equal.
  - induction items as [|i items IH]; [done|].
    unfold creditsOf in *. cbn. by rewrite IH.
  - unfold sharedCreditsOf. by rewrite Hun, Htotal, !length_fmap.
Qed.

End AllocatorCases.

(** ** The allocator in exact arithmetic *)

Section ExactArithmetic.
Implicit Types (costs : gmap string Qc) (items : list (BillItem Qc))
  (participants : list Participant) (asg : gmap string (list string)).

Lemma sumValues_insert_fresh costs k x :
  costs !! k = None -> sumValues (<[k := x]> costs) = (x + sumValues costs)%Qc.
Proof.
  intros Hk. unfold sumValues.
  apply (map_fold_insert_L (fun (_ : string) (value sum : Qc) => (value + sum)%Qc));
    [|done].
  intros. ring.
Qed.

Lemma sumValues_delete costs k x :
  costs !! k = Some x -> sumValues costs = (x + sumValues (delete k costs))%Qc.
Proof.
  intros Hk. unfold sumValues.
  apply (map_fold_delete_L (fun (_ : string) (value sum : Qc) => (value + sum)%Qc));
    [|done].
  intros. ring.
Qed.

Lemma sumValues_zero costs :
  (forall k x, costs !! k = Some x -> x = 0%Qc) -> sumValues costs = 0%Qc.
Proof.
  induction costs as [|k x costs Hk IH] using map_ind; intros Hall; [done|].
  rewrite sumValues_insert_fresh by done.
  rewrite (Hall k x) by apply lookup_insert_eq.
  rewrite IH; [ring|]. intros j y Hj. apply (Hall j).
  rewrite lookup_insert_ne; [done|]. intros ->. congruence.
Qed.

Lemma Qc_orZero (entry : option Qc) : orZero entry = default 0%Qc entry.
Proof.
  destruct entry as [x|]; [|done]. cbn. unfold Qc_falsy.
  by destruct (Qc_eq_dec x 0%Qc).
Qed.

Lemma sumValues_credit costs k amount :
  sumValues (credit costs k amount) = (sumValues costs + amount)%Qc.
Proof.
  unfold credit. rewrite Qc_orZero. destruct (costs !! k) as [x|] eqn:Hk.
  - rewrite <- insert_delete_eq.
    rewrite sumValues_insert_fresh by apply lookup_delete_eq.
    rewrite (sumValues_delete costs k x) by done. cbn. ring.
  - rewrite sumValues_insert_fresh by done. cbn. ring.
Qed.

Lemma Qc_of_nat_S n : Qc_of_nat (S n) = (Qc_of_nat n + 1)%Qc.
Proof.
  unfold Qc_of_nat. apply Qc_is_canon. cbn [this Qcplus Q2Qc].
  rewrite !Qred_correct, Nat2Z.inj_succ. unfold Z.succ.
  rewrite inject_Z_plus. reflexivity.
Qed.

Lemma Qc_of_nat_nonzero n : (0 < n)%nat -> Qc_of_nat n <> 0%Qc.
Proof.
  intros Hn Heq. apply (f_equal this) in Heq. cbn in Heq.
  assert (inject_Z (Z.of_nat n) == 0)%Q as Hq
    by (rewrite <- (Qred_correct (inject_Z _)), Heq; reflexivity).
  unfold Qeq in Hq. cbn in Hq. lia.
Qed.

(** Crediting the same amount once for each element of a list. *)
Lemma credit_all_sum {A} (key : A -> string) (l : list A) costs amount :
  sumValues (foldl (fun costs a => credit costs (key a) amount) costs l)
  = (sumValues costs + Qc_of_nat (length l) * amount)%Qc.
Proof.
  revert costs. induction l as [|a l IH]; intros costs.
  - cbn. change (Qc_of_nat 0) with 0%Qc. ring.
  - cbn [foldl length]. rewrite IH, sumValues_credit, Qc_of_nat_S. ring.
Qed.

(** The quotients of one price, one for each entry, add up to the price. *)
Lemma quotients_sum (price : Qc) n :
  (0 < n)%nat -> (Qc_of_nat n * (price / Qc_of_nat n) = price)%Qc.
Proof. intros Hn. apply Qcmult_div_r. by apply Qc_of_nat_nonzero. Qed.

Lemma totalBillAmount_from (z : Qc) items :
  foldl (fun sum it => (sum + item_price it)%Qc) z items
  = (z + totalBillAmount items)%Qc.
Proof.
  unfold totalBillAmount. revert z.
  induction items as [|i items IH]; intros z; cbn; [ring|].
  rewrite IH, (IH (0 + item_price i)%Qc). ring.
Qed.

Lemma totalBillAmount_cons i items :
  totalBillAmount (i :: items) = (item_price i + totalBillAmount items)%Qc.
Proof.
  unfold totalBillAmount at 1. cbn. rewrite totalBillAmount_from. ring.
Qed.

(** The loop over the items distributes the prices of the items that have
    a non-empty list. *)
Lemma assignItems_sum asg items costs ids :
  sumValues (foldl (assignItem asg) (costs, ids) items).1
  = (sumValues costs
     + (totalBillAmount items - totalBillAmount (unassigned items asg)))%Qc.
Proof.
  revert costs ids. induction items as [|i items IH]; intros costs ids.
  - cbn. change (totalBillAmount []) with 0%Qc. ring.
  - cbn [foldl]. unfold assignItem at 2. unfold unassigned. cbn [List.filter].
    fold (unassigned items asg).
    destruct (assignedTo asg i) as [|pId l] eqn:Hl.
    + cbn [length Nat.ltb Nat.leb]. rewrite bool_decide_eq_true_2 by done.
      rewrite IH, !totalBillAmount_cons. ring.
    + cbn [length Nat.ltb Nat.leb fst snd].
      rewrite bool_decide_eq_false_2 by done.
      rewrite IH, (credit_all_sum (fun pId => pId)), totalBillAmount_cons.
      cbn [ndiv nof_nat Qc_Number].
      rewrite quotients_sum by (cbn; lia).
      ring.
Qed.

Lemma initial_sum participants :
  sumValues (foldl (fun costs p => <[participant_id p := 0%Qc]> costs)
                   ∅ participants) = 0%Qc.
Proof.
  apply sumValues_zero. intros k x Hk.
  pose proof (init_lookup (num := Qc) participants ∅ k) as Hinit.
  cbn [nzero Qc_Number] in Hinit. rewrite Hk, lookup_empty in Hinit.
  case_bool_decide; congruence.
Qed.

(** The breakdown distributes the whole bill, but for the unassigned items
    when there is no participant to share them. *)
Lemma costBreakdown_sum items participants asg :
  unassigned items asg = [] \/ participants <> [] ->
  sumValues (costBreakdown items participants asg) = totalBillAmount items.
Proof.
  intros Hshare. unfold costBreakdown.
  destruct (foldl (assignItem asg) _ items) as [costs ids] eqn:Hloop.
  pose proof (assignItems_sum asg items
    (foldl (fun costs p => <[participant_id p := nzero]> costs) ∅ participants)
    ∅) as Hsum.
  pose proof (unassigned_filter asg items
    (foldl (fun costs p => <[participant_id p := nzero]> costs) ∅ participants))
    as Hun.
  rewrite Hloop in Hsum, Hun. cbn [fst snd] in Hsum, Hun.
  cbn [nzero Qc_Number] in Hsum. rewrite initial_sum in Hsum.
  rewrite Hun.
  destruct (unassigned items asg) as [|i l] eqn:Hl.
  - cbn. rewrite Hsum. change (totalBillAmount []) with 0%Qc. ring.
  - destruct Hshare as [?|Hps]; [done|].
    destruct participants as [|p ps]; [done|].
    cbn [length Nat.ltb Nat.leb andb].
    rewrite credit_all_sum, Hsum. cbn [ndiv nof_nat Qc_Number].
    rewrite quotients_sum by (cbn; lia). ring.
Qed.


End ExactArithmetic.

(** ** Binary64 facts *)

(** [0 + x] is [x], but for [-0], which it turns into [+0]. *)
Lemma float_add_zero_l (x : float) : same_number (0 + x)%float x.
Proof.
  assert (Prim2SF (0 + x)%float
          = match Prim2SF x with
            | S754_zero _ => S754_zero false
            | y => y
            end) as Hadd.
  { rewrite FloatAxioms.add_spec. change (Prim2SF 0%float) with (S754_zero false).
    by destruct (Prim2SF x) as [[]| | |]. }
  destruct (Prim2SF x) as [s| | |] eqn:Hx.
  - right. rewrite FloatAxioms.eqb_spec, Hadd, Hx. by destruct s.
  - left. apply Prim2SF_inj. by rewrite Hadd, Hx.
  - left. apply Prim2SF_inj. by rewrite Hadd, Hx.
  - left. apply Prim2SF_inj. by rewrite Hadd, Hx.
Qed.

(** Two binary64 values that [===] tells apart are different. *)
Lemma float_eqb_false_neq (x y : float) :
  PrimFloat.eqb x y = false -> PrimFloat.is_nan x = false -> x <> y.
Proof.
  intros Hxy Hnan ->. unfold PrimFloat.is_nan in Hnan.
  rewrite Hxy in Hnan. done.
Qed.

(** ** The claims about the allocator *)






(** C2: the allocator on an item flagged [isShared] that has a list.  The
    flag changes no breakdown; so the flagged item of price 2 assigned to a
    alone charges a 2 and b nothing, where the equal split of a shared item
    (what the same bill gives without the assignment) is 1 each. *)
Theorem shared_item_follows_assignment :
  (forall flag (items : list (BillItem float)) participants asg,
     costBreakdown
       ((fun it => {| item_id := item_id it;
                      item_description := item_description it;
                      item_price := item_price it;
                      item_isShared := flag |}) <$> items) participants asg
     = costBreakdown items participants asg)
  /\ costBreakdown [sharedItem "1" 2%float] [person "a"; person "b"]
                   (<["1" := ["a"]]> ∅)
     = (<["a" := 2%float]> (<["b" := 0%float]> ∅))
  /\ costBreakdown [sharedItem "1" 2%float] [person "a"; person "b"] ∅
     = (<["a" := 1%float]> (<["b" := 1%float]> ∅)).
Proof.
  split; [|split; vm_compute; reflexivity].
  intros flag items participants asg. apply costBreakdown_ignores_isShared.
Qed.

(** C3 (as amended).  An id of an item's list that names no participant does
    not make the allocator fail, and it is not ignored: it counts in the
    divisor, and the breakdown has an entry for it, credited with one
    quotient (the price divided by the length of the whole list) for each
    of its occurrences. *)
Theorem unknown_id_credited {num : Type} `{Number num}
    (items : list (BillItem num)) participants asg u :
  u ∉ participant_id <$> participants ->
  costBreakdown items participants asg !! u
    = accumulate None (creditsOf u items asg)
  /\ (forall it, items = [it] ->
      costBreakdown items participants asg !! u
      = accumulate None
          (replicate (occurrences u (assignedTo asg it))
             (ndiv (item_price it)
                   (nof_nat (length (assignedTo asg it))))))
  /\ (forall it, it ∈ items -> u ∈ assignedTo asg it ->
      is_Some (costBreakdown items participants asg !! u)).
Proof.
  intros Hu.
  assert (costBreakdown items participants asg !! u
          = accumulate None (creditsOf u items asg)) as Hlookup.
  { rewrite costBreakdown_lookup. unfold sharedCreditsOf, initialEntry.
    case_bool_decide; [done|].
    rewrite (occurrences_not_elem_of u) by done.
    destruct (_ && _); cbn [replicate]; by rewrite app_nil_r. }
  split; [done|]. split.
  - intros it ->. rewrite Hlookup. unfold creditsOf. cbn [flat_map].
    by rewrite app_nil_r.
  - intros it Hin Hit. rewrite Hlookup. by apply (creditsOf_is_Some u items asg it).
Qed.

Lemma unknown_id_credited_witness :
  let items : list (BillItem float) := [plainItem "1" 10%float] in
  let participants := [person "a"] in
  let asg : gmap string (list string) := <["1" := ["a"; "ghost"]]> ∅ in
  ("ghost" ∉ participant_id <$> participants)
  /\ costBreakdown items participants asg !! "ghost"
     = accumulate None (creditsOf "ghost" items asg).
Proof.
  cbv zeta.
  assert ("ghost" ∉ participant_id <$> [person "a"]) as Hghost
    by decided.
  split; [exact Hghost|].
  exact (proj1 (unknown_id_credited [plainItem "1" 10%float] [person "a"]
                  (<["1" := ["a"; "ghost"]]> ∅) "ghost" Hghost)).
Defined.

(** C3, as stated, fails: an item of price 10 assigned to the participant a
    and to an id that names nobody charges a 5 and gives the unknown id an
    entry of 5; were the id absent from the list, a would be charged 10. *)
Lemma unknown_id_counterexample :
  let items : list (BillItem float) := [plainItem "1" 10%float] in
  let participants := [person "a"] in
  let asg : gmap string (list string) := <["1" := ["a"; "ghost"]]> ∅ in
  costBreakdown items participants asg
    = (<["a" := 5%float]> (<["ghost" := 5%float]> ∅))
  /\ withoutUnknown participants asg = (<["1" := ["a"]]> ∅)
  /\ costBreakdown items participants (withoutUnknown participants asg)
    = (<["a" := 10%float]> ∅).
Proof. cbv zeta. repeat split; vm_compute; reflexivity. Qed.

Lemma equal_split_entry {num : Type} `{Number num}
    (items : list (BillItem num)) participants asg p :
  items <> [] -> noneAssigned items asg = true ->
  NoDup (participant_id <$> participants) -> p ∈ participants ->
  costBreakdown items participants asg !! participant_id p
  = Some (nadd (orZero (Some nzero))
               (ndiv (totalBillAmount items) (nof_nat (length participants)))).
Proof.
  intros Hitems Hnone Hnodup Hp.
  assert (participant_id p ∈ participant_id <$> participants) as Hin
    by by apply list_elem_of_fmap_2.
  rewrite costBreakdown_lookup, creditsOf_noneAssigned by done.
  unfold sharedCreditsOf, initialEntry.
  rewrite unassigned_noneAssigned, bool_decide_eq_true_2 by done.
  rewrite occurrences_NoDup by done.
  destruct items as [|i items]; [done|].
  destruct participants as [|q ps]; [by apply elem_of_nil in Hp|].
  done.
Qed.

Lemma shared_entry {num : Type} `{Number num}
    (items : list (BillItem num)) participants asg p :
  items <> [] -> noneAssigned items asg = true -> p ∈ participants ->
  costBreakdown items participants asg !! participant_id p
  = accumulate (Some nzero)
      (replicate (occurrences (participant_id p) (participant_id <$> participants))
         (ndiv (totalBillAmount items) (nof_nat (length participants)))).
Proof.
  intros Hitems Hnone Hp.
  assert (participant_id p ∈ participant_id <$> participants) as Hin
    by by apply list_elem_of_fmap_2.
  rewrite costBreakdown_lookup, creditsOf_noneAssigned by done.
  unfold sharedCreditsOf, initialEntry.
  rewrite unassigned_noneAssigned, bool_decide_eq_true_2 by done.
  destruct items as [|i items]; [done|].
  destruct participants as [|q ps]; [by apply elem_of_nil in Hp|].
  done.
Qed.

Lemma totalBillAmount_foldl {num : Type} `{Number num} (items : list (BillItem num)) :
  totalBillAmount items = foldl nadd nzero (item_price <$> items).
Proof. unfold totalBillAmount. by rewrite foldl_fmap. Qed.

Lemma sumList_foldl (z : Qc) (l : list Qc) :
  foldl Qcplus z l = (z + sumList l)%Qc.
Proof.
  revert z. induction l as [|x l IH]; intros z; cbn; [ring|].
  rewrite IH. fold (sumList l). ring.
Qed.

(** C4 (as amended).  When no item has a list with an entry, the entry of
    a participant's id is the initial [0] credited with the quotient
    [sum / N] once for every participant that bears this id.  So, for
    participants with distinct ids, every participant's total is [0 + sum / N]:
    in binary64 the same number for [===] as the sum of the prices, added
    from the left starting at [0], divided by the number of participants
    (the identical value, but [+0] where the quotient is [-0]); in exact
    arithmetic exactly the sum of the prices divided by N.  [isShared] is
    not read. *)
Theorem equal_split :
  (forall (num : Type) (N : Number num) (items : list (BillItem num))
          participants asg p,
     items <> [] -> noneAssigned items asg = true -> p ∈ participants ->
     costBreakdown items participants asg !! participant_id p
     = accumulate (Some nzero)
         (replicate
            (occurrences (participant_id p) (participant_id <$> participants))
            (ndiv (totalBillAmount items) (nof_nat (length participants)))))
  /\ (forall (items : list (BillItem float)) participants asg p,
     items <> [] -> noneAssigned items asg = true ->
     NoDup (participant_id <$> participants) -> p ∈ participants ->
     exists total,
       costBreakdown items participants asg !! participant_id p = Some total
       /\ same_number total
            (foldl PrimFloat.add 0 (item_price <$> items)
             / PrimFloat.of_uint63
                 (Uint63.of_Z (Z.of_nat (length participants))))%float)
  /\ (forall (items : list (BillItem Qc)) participants asg p,
     items <> [] -> noneAssigned items asg = true ->
     NoDup (participant_id <$> participants) -> p ∈ participants ->
     costBreakdown items participants asg !! participant_id p
     = Some (sumList (item_price <$> items)
             / Q2Qc (inject_Z (Z.of_nat (length participants))))%Qc).
Proof.
  split; [|split].
  - intros num N items participants asg p. apply shared_entry.
  - intros items participants asg p Hitems Hnone Hnodup Hp. eexists. split.
    + by apply equal_split_entry.
    + rewrite totalBillAmount_foldl. apply float_add_zero_l.
  - intros items participants asg p Hitems Hnone Hnodup Hp.
    rewrite equal_split_entry by done. f_equal.
    rewrite totalBillAmount_foldl, Qc_orZero.
    cbn [nadd nzero ndiv nof_nat Qc_Number default].
    rewrite sumList_foldl. unfold Qc_of_nat, Qcdiv, Datatypes.id. ring.
Qed.

Lemma equal_split_witness :
  let items : list (BillItem float) :=
    [plainItem "1" 10%float; plainItem "2" 2%float] in
  let participants := [person "a"; person "b"; person "c"] in
  items <> [] /\ noneAssigned items ∅ = true
  /\ NoDup (participant_id <$> participants)
  /\ exists total,
       costBreakdown items participants ∅ !! "b" = Some total
       /\ same_number total 4%float.
Proof.
  cbv zeta.
  assert ([plainItem "1" 10%float; plainItem "2" 2%float] <> []) as Hitems
    by discriminate.
  assert (noneAssigned [plainItem "1" 10%float; plainItem "2" 2%float] ∅ = true)
    as Hnone by (vm_compute; reflexivity).
  assert (NoDup (participant_id <$> [person "a"; person "b"; person "c"]))
    as Hnodup by decided.
  assert (person "b" ∈ [person "a"; person "b"; person "c"]) as Hp by decided.
  split; [exact Hitems|]. split; [exact Hnone|]. split; [exact Hnodup|].
  exact (proj1 (proj2 equal_split)
           [plainItem "1" 10%float; plainItem "2" 2%float]
           [person "a"; person "b"; person "c"] ∅ (person "b")
           Hitems Hnone Hnodup Hp).
Defined.

(** C4, as stated, fails for participants that share an id, which nothing
    in the program excludes (the ids are readings of the clock): one item of
    price 10 and two participants with the same id give that id the total
    10, twice the quotient 10 / 2 = 5. *)
Lemma shared_id_counterexample :
  let participants :=
    [ {| participant_id := "1700000000000"; participant_name := "Ann" |};
      {| participant_id := "1700000000000"; participant_name := "Bob" |} ] in
  let items : list (BillItem float) := [plainItem "1" 10%float] in
  noneAssigned items ∅ = true
  /\ length participants = 2%nat
  /\ totalBillAmount items = 10%float
  /\ costBreakdown items participants ∅ = (<["1700000000000" := 10%float]> ∅)
  /\ (10 / 2 = 5)%float
  /\ PrimFloat.eqb 10 5 = false.
Proof. cbv zeta. repeat split; vm_compute; reflexivity. Qed.

(** *** The allocator statement by statement *)


Section TracedFacts.
Context {num : Type} `{Number num}.
Implicit Types (costs : gmap string num) (items : list (BillItem num))
  (participants : list Participant) (asg : gmap string (list string)).










End TracedFacts.






Lemma accumulate_replicate_exact (entry : option Qc) k (q : Qc) :
  (0 < k)%nat ->
  accumulate entry (replicate k q)
  = Some (default 0%Qc entry + Qc_of_nat k * q)%Qc.
Proof.
  intros Hk. destruct k as [|k]; [lia|]. clear Hk. revert entry.
  induction k as [|k IH]; intros entry.
  - cbn. rewrite Qc_orZero. f_equal. change (Qc_of_nat 1) with 1%Qc. ring.
  - change (replicate (S (S k)) q) with (q :: replicate (S k) q).
    cbn [accumulate foldl]. fold (accumulate (Some (nadd (orZero entry) q))
                                             (replicate (S k) q)).
    rewrite IH, Qc_orZero, (Qc_of_nat_S (S k)). cbn. f_equal. ring.
Qed.

(** C9 (as amended).  For an item whose list is not empty, the price is
    divided by the number of entries, repetitions counted, and the quotient
    is credited once for each entry: for an id listed k times the statement
    [costs[pId] = (costs[pId] || 0) + quotient] runs k times, each time on
    the total it finds, read as [0] when it is missing, [NaN] or a zero.  In
    exact arithmetic the amounts distributed for the item add up to its
    price, and the id listed k times out of n is charged k * price / n; in
    binary64 both equalities can fail. *)
Theorem duplicate_entries_quotients :
  (forall (num : Type) (N : Number num) asg (it : BillItem num) costs ids u,
     assignedTo asg it <> [] ->
     (assignItem asg (costs, ids) it).1 !! u
     = accumulate (costs !! u)
         (replicate (occurrences u (assignedTo asg it))
            (ndiv (item_price it) (nof_nat (length (assignedTo asg it))))))
  /\ (forall asg (it : BillItem Qc) (costs : gmap string Qc) ids,
     assignedTo asg it <> [] ->
     sumValues (assignItem asg (costs, ids) it).1
     = (sumValues costs + item_price it)%Qc
     /\ forall u, u ∈ assignedTo asg it ->
        (assignItem asg (costs, ids) it).1 !! u
        = Some (default 0 (costs !! u)
                + Qc_of_nat (occurrences u (assignedTo asg it)) * item_price it
                  / Qc_of_nat (length (assignedTo asg it)))%Qc)
  /\ (exists asg (it : BillItem float) (charged : float),
     assignedTo asg it <> []
     /\ (assignItem asg (∅, ∅) it).1 = (<["a" := charged]> ∅)
     /\ PrimFloat.eqb charged (item_price it) = false
     /\ PrimFloat.eqb charged
          (float_of_nat (occurrences "a" (assignedTo asg it)) * item_price it
           / float_of_nat (length (assignedTo asg it))) = false).
Proof.
  assert (forall (num : Type) (N : Number num) asg (it : BillItem num) costs ids u,
     assignedTo asg it <> [] ->
     (assignItem asg (costs, ids) it).1 !! u
     = accumulate (costs !! u)
         (replicate (occurrences u (assignedTo asg it))
            (ndiv (item_price it) (nof_nat (length (assignedTo asg it))))))
    as Hentry.
  { intros num N asg it costs ids u Hl. unfold assignItem.
    destruct (assignedTo asg it) as [|pId l]; [done|].
    cbn [length Nat.ltb Nat.leb fst snd].
    by rewrite (credit_all_lookup (fun pId => pId)), list_fmap_id. }
  split; [exact Hentry|]. split.
  2:{ exists (<["1" := ["a"; "a"; "a"; "a"; "a"; "a"]]> ∅),
             (plainItem "1" 1%float), 0.99999999999999989%float.
      split; [vm_compute; discriminate|].
      repeat split; vm_compute; reflexivity. }
  intros asg it costs ids Hl. split.
  - unfold assignItem. destruct (assignedTo asg it) as [|pId l]; [done|].
    cbn [length Nat.ltb Nat.leb fst snd].
    rewrite (credit_all_sum (fun pId => pId)). cbn [ndiv nof_nat Qc_Number].
    rewrite quotients_sum by (cbn; lia). done.
  - intros u Hu. rewrite Hentry by done.
    rewrite accumulate_replicate_exact by by apply occurrences_elem_of.
    f_equal. cbn [ndiv nof_nat Qc_Number]. unfold Qcdiv. ring.
Qed.

Lemma duplicate_entries_quotients_witness :
  let asg : gmap string (list string) := <["1" := ["a"; "b"; "a"]]> ∅ in
  let it : BillItem Qc := plainItem "1" (Q2Qc 10) in
  assignedTo asg it <> []
  /\ sumValues (assignItem asg (∅, ∅) it).1 = (sumValues ∅ + item_price it)%Qc.
Proof.
  cbv zeta.
  assert (assignedTo (<["1" := ["a"; "b"; "a"]]> ∅)
            (plainItem (num := Qc) "1" (Q2Qc 10)) <> []) as Hl
    by (vm_compute; discriminate).
  split; [exact Hl|].
  exact (proj1 (proj1 (proj2 duplicate_entries_quotients)
                  (<["1" := ["a"; "b"; "a"]]> ∅) (plainItem "1" (Q2Qc 10))
                  ∅ ∅ Hl)).
Defined.

(** C9, as stated, fails in binary64: an item of price 1 whose list names a
    six times credits a with six quotients 1/6, whose running sum is
    0.9999999999999999, not the price, and not 6 * 1 / 6 = 1. *)
Lemma duplicate_entries_counterexample :
  let items : list (BillItem float) := [plainItem "1" 1%float] in
  let asg : gmap string (list string) :=
    <["1" := ["a"; "a"; "a"; "a"; "a"; "a"]]> ∅ in
  costBreakdown items [person "a"] asg
    = (<["a" := 0.99999999999999989%float]> ∅)
  /\ (6 * 1 / 6 = 1)%float
  /\ PrimFloat.eqb 0.99999999999999989 1 = false
  /\ 0.99999999999999989%float <> 1%float.
Proof.
  cbv zeta. repeat split; try (vm_compute; reflexivity).
  apply float_eqb_false_neq; vm_compute; reflexivity.
Qed.

(** ** The match of the regular expression *)

Lemma append_nil_l (s : string) : String.append "" s = s.
Proof. reflexivity. Qed.

Lemma append_cons c (s t : string) :
  String.append (String c s) t = String c (String.append s t).
Proof. reflexivity. Qed.

Lemma includes_false_cons c d s :
  includes c (String d s) = false <-> Ascii.eqb c d = false /\ includes c s = false.
Proof. cbn [includes]. apply orb_false_iff. Qed.

Lemma greedyUpTo_without close s :
  includes close s = false -> greedyUpTo close s = None.
Proof.
  induction s as [|c s IH]; [done|].
  intros [Hc Hs]%includes_false_cons. cbn. rewrite IH by done.
  by rewrite Ascii.eqb_sym, Hc.
Qed.

Lemma greedyUpTo_None close s :
  greedyUpTo close s = None -> includes close s = false.
Proof.
  induction s as [|c s IH]; [done|]. cbn.
  destruct (greedyUpTo close s); [done|].
  destruct (Ascii.eqb c close) eqn:Hc; [done|]. intros _.
  by rewrite Ascii.eqb_sym, Hc, IH.
Qed.

(** The star takes everything up to the last closing bracket. *)
Lemma greedyUpTo_last close body post :
  includes close post = false ->
  greedyUpTo close (String.append body (String close post))
  = Some (String.append body (String close "")).
Proof.
  intros Hpost. induction body as [|c body IH].
  - rewrite !append_nil_l. cbn.
    rewrite greedyUpTo_without by done. by rewrite Ascii.eqb_refl.
  - rewrite !append_cons. cbn. by rewrite IH.
Qed.

Lemma greedyUpTo_Some close s m :
  greedyUpTo close s = Some m ->
  exists body post,
    s = String.append body (String close post)
    /\ includes close post = false
    /\ m = String.append body (String close "").
Proof.
  revert m. induction s as [|c s IH]; intros m; [done|]. cbn.
  destruct (greedyUpTo close s) as [m'|] eqn:Hs.
  - intros [= <-]. destruct (IH m' eq_refl) as (body & post & -> & Hpost & ->).
    by exists (String c body), post.
  - destruct (Ascii.eqb c close) eqn:Hc; [|done]. intros [= <-].
    apply Ascii.eqb_eq in Hc as ->.
    exists EmptyString, s. split; [done|]. split; [|done].
    by apply greedyUpTo_None.
Qed.

(** The match starts at the first opening bracket and ends at the last
    closing bracket after it. *)
Lemma regexMatch_first_to_last open close pre body post :
  includes open pre = false -> includes close post = false ->
  regexMatch open close
    (String.append pre (String open (String.append body (String close post))))
  = Some (String open (String.append body (String close ""))).
Proof.
  intros Hpre Hpost. induction pre as [|c pre IH].
  - rewrite append_nil_l. cbn. rewrite Ascii.eqb_refl.
    by rewrite greedyUpTo_last.
  - apply includes_false_cons in Hpre as [Hc Hpre].
    rewrite append_cons. cbn. rewrite Ascii.eqb_sym, Hc. by apply IH.
Qed.

Lemma regexMatch_Some open close text m :
  regexMatch open close text = Some m ->
  exists pre body post,
    text = String.append pre
             (String open (String.append body (String close post)))
    /\ includes open pre = false /\ includes close post = false
    /\ m = String open (String.append body (String close "")).
Proof.
  revert m. induction text as [|c text IH]; intros m; [done|]. cbn.
  destruct (Ascii.eqb c open) eqn:Hc.
  - apply Ascii.eqb_eq in Hc as ->.
    destruct (greedyUpTo close text) as [m'|] eqn:Hg.
    + intros [= <-].
      destruct (greedyUpTo_Some _ _ _ Hg) as (body & post & -> & Hpost & ->).
      by exists EmptyString, body, post.
    + intros Hm. destruct (IH m Hm) as (pre & body & post & Ht & _ & Hpost & _).
      apply greedyUpTo_None in Hg. exfalso. subst text. clear -Hg Hpost.
      induction pre as [|d pre IH].
      * rewrite append_nil_l in Hg.
        apply includes_false_cons in Hg as [_ Hg]. clear -Hg.
        induction body as [|d body IH].
        -- rewrite append_nil_l in Hg.
           apply includes_false_cons in Hg as [Hg _].
           by rewrite Ascii.eqb_refl in Hg.
        -- rewrite append_cons in Hg.
           apply includes_false_cons in Hg as [_ Hg]. by apply IH.
      * rewrite append_cons in Hg.
        apply includes_false_cons in Hg as [_ Hg]. by apply IH.
  - intros Hm. destruct (IH m Hm) as (pre & body & post & -> & Hpre & Hpost & ->).
    exists (String c pre), body, post. repeat split; try done.
    apply includes_false_cons. by rewrite Ascii.eqb_sym.
Qed.

(** C5 (as amended).  The text is first parsed whole.  When that fails, the
    substring that is parsed is the one from the first opening bracket of
    the text to the last closing bracket after it (brackets of the one form
    the revision looks for), whatever lies between them; the parsing fails
    exactly when neither attempt succeeds. *)
Theorem parse_fallback_first_to_last (parse : string -> option JSValue)
    (open close : ascii) (text : string) :
  (forall parsed, parse text = Some parsed ->
     parseModelText parse open close text = Return parsed)
  /\ (parse text = None ->
      forall pre body post,
        text = String.append pre
                 (String open (String.append body (String close post))) ->
        includes open pre = false -> includes close post = false ->
        parseModelText parse open close text
        = match parse (String open (String.append body (String close ""))) with
          | Some parsed => Return parsed
          | None => Throw SyntaxError
          end)
  /\ (parse text = None ->
      (forall pre body post,
         text <> String.append pre
                   (String open (String.append body (String close post)))) ->
      parseModelText parse open close text = Throw FailedToParseAsJson)
  /\ ((exists e, parseModelText parse open close text = Throw e)
      <-> parse text = None
          /\ forall jsonMatch, regexMatch open close text = Some jsonMatch ->
                               parse jsonMatch = None).
Proof.
  unfold parseModelText. split; [|split; [|split; [|split]]].
  - by intros parsed ->.
  - intros -> pre body post -> Hpre Hpost.
    by rewrite regexMatch_first_to_last.
  - intros -> Hnone. destruct (regexMatch open close text) as [m|] eqn:Hm; [|done].
    destruct (regexMatch_Some _ _ _ _ Hm) as (pre & body & post & Ht & _).
    by destruct (Hnone pre body post).
  - destruct (parse text); [by intros [e ?]|].
    intros [e He]. split; [done|]. intros m Hm. rewrite Hm in He.
    by destruct (parse m).
  - intros [-> Hnone]. destruct (regexMatch open close text) as [m|]; [|by eexists].
    rewrite (Hnone m eq_refl). by eexists.
Qed.

Lemma parse_fallback_first_to_last_witness :
  jsonParse "Here it is: [1, 2] and [3" = None
  /\ parseModelText jsonParse "[" "]" "Here it is: [1, 2] and [3"
     = match jsonParse "[1, 2]" with
       | Some parsed => Return parsed
       | None => Throw SyntaxError
       end.
Proof.
  assert (jsonParse "Here it is: [1, 2] and [3" = None) as Hdirect
    by (vm_compute; reflexivity).
  split; [exact Hdirect|].
  exact (proj1 (proj2 (parse_fallback_first_to_last jsonParse "[" "]"
                         "Here it is: [1, 2] and [3"))
           Hdirect "Here it is: " "1, 2" " and [3" eq_refl eq_refl eq_refl).
Defined.

(** C5, as stated, fails: in "[1] and [2]" the first well-formed structure
    is "[1]", which parses, while the program parses the text between the
    first "[" and the last "]", which does not. *)
Lemma first_structure_counterexample :
  jsonParse "[1] and [2]" = None
  /\ firstWellFormedStructure jsonParse "[1] and [2]" = Some "[1]"
  /\ specParseModelText jsonParse "[1] and [2]" = Return (JArr [JNum 1])
  /\ regexMatch "[" "]" "[1] and [2]" = Some "[1] and [2]"
  /\ parseModelText jsonParse "[" "]" "[1] and [2]" = Throw SyntaxError.
Proof. repeat split; vm_compute; reflexivity. Qed.

(** ** The claims about [processBillImage] *)

(** C8.  When the API key is undefined, empty, or the placeholder, both
    revisions of [processBillImage] throw the configuration error (wrapped,
    as every error is) having done nothing but log it: the file is not read,
    the model is not called, and no items are returned. *)
Theorem missing_api_key_fails_first (env : Env) (imageUri : string) :
  GEMINI_API_KEY env = None
  \/ GEMINI_API_KEY env = Some ""
  \/ GEMINI_API_KEY env = Some "YOUR_GEMINI_API_KEY" ->
  SchemaA.processBillImage env imageUri
    = ([ConsoleError "Error processing bill image:"],
       Throw (FailedToProcess ApiKeyNotConfigured))
  /\ SchemaB.processBillImage env imageUri
    = ([ConsoleError "Error processing bill image:"],
       Throw (FailedToProcess ApiKeyNotConfigured)).
Proof.
  intros Hkey.
  assert (apiKeyMissing env = true) as Hmissing
    by (unfold apiKeyMissing; destruct Hkey as [->|[->| ->]]; reflexivity).
  unfold SchemaA.processBillImage, SchemaB.processBillImage.
  rewrite Hmissing. split; reflexivity.
Qed.

Lemma missing_api_key_fails_first_witness :
  let env := constantEnv (Some "YOUR_GEMINI_API_KEY") (Some "AAAA") (Some "[]") in
  GEMINI_API_KEY env = Some "YOUR_GEMINI_API_KEY"
  /\ SchemaB.processBillImage env "bill.png"
     = ([ConsoleError "Error processing bill image:"],
        Throw (FailedToProcess ApiKeyNotConfigured)).
Proof.
  cbv zeta. split; [reflexivity|].
  exact (proj2 (missing_api_key_fails_first
                  (constantEnv (Some "YOUR_GEMINI_API_KEY") (Some "AAAA") (Some "[]"))
                  "bill.png" (or_intror (or_intror eq_refl)))).
Defined.

(** With a key, the first thing the function does is read the file. *)
Lemma configured_key_reads_image (env : Env) (imageUri : string) :
  apiKeyMissing env = false ->
  exists events r,
    SchemaB.processBillImage env imageUri = (ReadFile imageUri :: events, r).
Proof.
  intros Hkey. unfold SchemaB.processBillImage, getBase64FromUri, askModel.
  rewrite Hkey. destruct (readAsStringAsync env imageUri); cbn.
  - destruct (generateContent env _ _ _); cbn; [|by eexists _, _].
    destruct (parseModelText _ _ _ _); cbn; [|by eexists _, _..].
    destruct (SchemaB.normalize _); cbn; by eexists _, _.
  - by eexists _, _.
Qed.

Lemma getProp_notNull (v : JSValue) (name : string) :
  notNull v -> getProp v name = Return (propertyOf v name).
Proof. intros [Hnull Hundefined]. by destruct v. Qed.

(** A callback that returns for every element makes [map] return. *)
Lemma mapWithIndex_Return {A B} (f : nat -> A -> Outcome B) (g : nat -> A -> B)
    (index : nat) (l : list A) :
  (forall j a, l !! j = Some a -> f (index + j)%nat a = Return (g (index + j)%nat a)) ->
  mapWithIndex f index l = Return (imap (fun j => g (index + j)%nat) l).
Proof.
  revert index. induction l as [|a l IH]; intros index Hf; [done|].
  cbn [mapWithIndex imap].
  pose proof (Hf 0%nat a eq_refl) as Ha. rewrite Nat.add_0_r in Ha.
  rewrite Ha, Nat.add_0_r. cbn.
  rewrite (IH (S index)).
  - cbn. do 2 f_equal. apply imap_ext. intros j x _. cbn. f_equal. lia.
  - intros j x Hj. replace (S index + j)%nat with (index + S j)%nat by lia.
    by apply Hf.
Qed.

Lemma strictly_true_iff (v : JSValue) : strictly_true v = true <-> v = JBool true.
Proof. split; [|by intros ->]. by destruct v as [| |[]| | | |]. Qed.

(** C10.  Schema B keeps the parsed items in their order, one item for
    each, with the description and the price it reads, and flags an item
    [isShared] exactly when its [isTax] is the boolean [true]: the string
    "true" and the number 1 are not. *)
Theorem schemaB_isShared_iff_isTax_true (elements : list JSValue) :
  Forall notNull elements ->
  SchemaB.normalize (JArr elements)
  = Return (imap (fun index element =>
      {| id := toString (index + 1);
         description := propertyOf element "description";
         price := propertyOf element "price";
         isShared := Some (strictly_true (propertyOf element "isTax")) |})
      elements)
  /\ (forall isTax, strictly_true isTax = true <-> isTax = JBool true)
  /\ strictly_true (JStr "true") = false
  /\ strictly_true (JNum 1) = false.
Proof.
  intros Hnot. split; [|split; [apply strictly_true_iff|by split]].
  unfold SchemaB.normalize.
  rewrite (mapWithIndex_Return _ (fun index element =>
      {| id := toString (index + 1);
         description := propertyOf element "description";
         price := propertyOf element "price";
         isShared := Some (strictly_true (propertyOf element "isTax")) |})); [done|].
  intros j a Hj. cbn [Nat.add].
  assert (notNull a) as Ha by (eapply Forall_lookup_1; eauto).
  rewrite !getProp_notNull by done. done.
Qed.

Lemma schemaB_isShared_iff_isTax_true_witness :
  let elements :=
    [JObj [("description", JStr "Tea"); ("price", JNum 10); ("isTax", JBool false)];
     JObj [("description", JStr "Tax"); ("price", JNum 2); ("isTax", JBool true)];
     JObj [("description", JStr "Tip"); ("price", JNum 1); ("isTax", JStr "true")];
     JObj [("description", JStr "Fee"); ("price", JNum 3); ("isTax", JNum 1)]] in
  Forall notNull elements
  /\ SchemaB.normalize (JArr elements)
     = Return
         [{| id := "1"; description := JStr "Tea"; price := JNum 10;
             isShared := Some false |};
          {| id := "2"; description := JStr "Tax"; price := JNum 2;
             isShared := Some true |};
          {| id := "3"; description := JStr "Tip"; price := JNum 1;
             isShared := Some false |};
          {| id := "4"; description := JStr "Fee"; price := JNum 3;
             isShared := Some false |}].
Proof.
  cbv zeta.
  assert (forall v, (exists l, v = JObj l) -> notNull v) as Hobj
    by (intros v [l ->]; split; discriminate).
  match goal with |- Forall notNull ?l /\ _ =>
    assert (Forall notNull l) as Hall
      by (repeat constructor; apply Hobj; eexists; reflexivity)
  end.
  split; [exact Hall|].
  exact (proj1 (schemaB_isShared_iff_isTax_true _ Hall)).
Defined.

Lemma float_orZero_same_number (x : float) :
  PrimFloat.is_nan x = false -> same_number (orZero (Some x)) x.
Proof.
  intros Hnan. cbn [orZero nfalsy nzero float_Number]. unfold float_falsy.
  rewrite Hnan, orb_false_r.
  destruct (PrimFloat.eqb x 0) eqn:Hzero; [|by left].
  right. rewrite FloatAxioms.eqb_spec in Hzero |- *.
  change (Prim2SF 0) with (S754_zero false) in *.
  by destruct (Prim2SF x) as [[]|[]| |[] m e].
Qed.

(** The integer [toFixed] prints is within one half of a hundred times the
    number (here for a number with a fractional part, [m * 2^e], [e < 0]). *)
Lemma nearestHundredths_nearest (m : positive) (e : Z) :
  (e < 0)%Z ->
  let n := nearestHundredths m e in
  (2 * n * 2 ^ (- e) <= 2 * 100 * Z.pos m + 2 ^ (- e)
   < 2 * (n + 1) * 2 ^ (- e))%Z.
Proof.
  intros He n. subst n. unfold nearestHundredths.
  destruct (Z.leb_spec 0 e) as [?|_]; [lia|].
  assert (0 < 2 ^ (- e))%Z as Hpow by (apply Z.pow_pos_nonneg; lia).
  replace (2 ^ (- e + 1))%Z with (2 * 2 ^ (- e))%Z
    by (rewrite Z.pow_add_r by lia; lia).
  set (a := (2 * 100 * Z.pos m + 2 ^ (- e))%Z).
  set (b := (2 * 2 ^ (- e))%Z).
  assert (0 < b)%Z as Hb by (subst b; lia).
  pose proof (Z.mul_div_le a b Hb). pose proof (Z.mul_succ_div_gt a b Hb).
  subst b. nia.
Qed.

(** C6.  For a response with items, a [cgst] and a [sgst] that are numbers,
    every returned price is the item's price plus the share
    [(cgst + sgst) / itemCount] (a [cgst] or [sgst] that is [0] is read as
    [+0], the same number), as [toFixed(2)] prints it, read back as a
    number; the ids count from "1".  One item "Tea" of price 10 with taxes 1
    and 1 comes out with price 12. *)
Theorem schemaA_tax_share :
  (forall parsedResponse elements (cgst sgst : float)
          (rows : list (JSValue * float)),
     elements <> [] ->
     getProp parsedResponse "items" = Return (JArr elements) ->
     getProp parsedResponse "cgst" = Return (JNum cgst) ->
     getProp parsedResponse "sgst" = Return (JNum sgst) ->
     Forall2 (fun element row =>
                getProp element "description" = Return row.1
                /\ getProp element "price" = Return (JNum row.2))
             elements rows ->
     let perItemTaxShare :=
       ((orZero (Some cgst) + orZero (Some sgst))
        / float_of_nat (length elements))%float in
     SchemaA.normalize parsedResponse
     = Return (imap (fun index row =>
         {| id := toString (index + 1);
            description := row.1;
            price := JNum (toFixed2 (row.2 + perItemTaxShare));
            isShared := None |}) rows))
  /\ (forall x, PrimFloat.is_nan x = false -> same_number (orZero (Some x)) x)
  /\ SchemaA.processBillImage
       (constantEnv (Some "key") (Some "AAAA")
          (Some (quoted
             "{'items':[{'description':'Tea','price':10}],'cgst':1,'sgst':1}")))
       "bill.jpg"
     = ([ReadFile "bill.jpg";
         GenerateContent PromptItemsAndTaxes "AAAA" "image/jpeg"],
        Return [{| id := "1"; description := JStr "Tea"; price := JNum 12;
                   isShared := None |}]).
Proof.
  split; [|split; [apply float_orZero_same_number | vm_compute; reflexivity]].
  intros parsedResponse elements cgst sgst rows Hne Hitems Hcgst Hsgst Hrows share.
  unfold SchemaA.normalize. rewrite Hitems, Hcgst, Hsgst.
  cbn [mbind Outcome_bind obind js_or truthy].
  destruct elements as [|element elements]; [done|].
  set (count := length (element :: elements)) in *.
  change (0 <? count)%nat with true. cbn iota.
  assert (SchemaA.taxPerItem (js_or (JNum cgst) (JNum 0))
            (js_or (JNum sgst) (JNum 0)) count
          = Return share) as ->.
  { unfold SchemaA.taxPerItem, share, js_or, truthy.
    cbn [orZero nfalsy nzero float_Number].
    by destruct (float_falsy cgst), (float_falsy sgst). }
  cbn [mbind Outcome_bind obind]. clearbody share. clear count.
  revert Hrows. generalize (element :: elements) as l. clear. intros l Hrows.
  assert (forall index,
    mapWithIndex (fun index item =>
        description ← getProp item "description";
        price ← getProp item "price";
        price ← SchemaA.adjustedPrice price share;
        Return {| id := toString (index + 1); description := description;
                  price := JNum price; isShared := None |})
      index l
    = Return (imap (fun j row =>
        {| id := toString (index + j + 1); description := row.1;
           price := JNum (toFixed2 (row.2 + share)); isShared := None |}) rows))
    as Hmap.
  { induction Hrows as [|item row items rows [Hd Hp] _ IH];
      intros index; [done|].
    cbn [mapWithIndex imap]. rewrite Hd, Hp. cbn. rewrite (IH (S index)). cbn.
    rewrite Nat.add_0_r. do 2 f_equal. apply imap_ext. intros j x _. cbn.
    do 2 f_equal. lia. }
  by rewrite Hmap.
Qed.

Lemma schemaA_tax_share_witness :
  let parsedResponse :=
    JObj [("items", JArr [JObj [("description", JStr "Tea"); ("price", JNum 10)];
                          JObj [("description", JStr "Bun"); ("price", JNum 2.5)]]);
          ("cgst", JNum 0.5); ("sgst", JNum 0.25)] in
  SchemaA.normalize parsedResponse
  = Return [{| id := "1"; description := JStr "Tea"; price := JNum 10.38;
               isShared := None |};
            {| id := "2"; description := JStr "Bun"; price := JNum 2.88;
               isShared := None |}].
Proof.
  cbv zeta.
  refine (eq_trans
    (proj1 schemaA_tax_share
       (JObj [("items", JArr [JObj [("description", JStr "Tea"); ("price", JNum 10)];
                              JObj [("description", JStr "Bun"); ("price", JNum 2.5)]]);
              ("cgst", JNum 0.5); ("sgst", JNum 0.25)])
       [JObj [("description", JStr "Tea"); ("price", JNum 10)];
        JObj [("description", JStr "Bun"); ("price", JNum 2.5)]]
       0.5%float 0.25%float [(JStr "Tea", 10%float); (JStr "Bun", 2.5%float)]
       _ eq_refl eq_refl eq_refl _) _).
  - discriminate.
  - repeat constructor.
  - vm_compute. reflexivity.
Defined.

(** A [null] among the elements is the one thing that makes Schema B's
    [map] throw. *)
Lemma schemaB_null_element_throws (elements : list JSValue) :
  ~ Forall notNull elements ->
  SchemaB.normalize (JArr elements) = Throw TypeError.
Proof.
  unfold SchemaB.normalize. intros Hnot.
  assert (forall index,
    mapWithIndex (fun index item =>
        description ← getProp item "description";
        price ← getProp item "price";
        isTax ← getProp item "isTax";
        Return {| id := toString (index + 1); description := description;
                  price := price; isShared := Some (strictly_true isTax) |})
      index elements = Throw TypeError) as Hmap; [|by apply Hmap].
  induction elements as [|element elements IH]; intros index.
  - by destruct Hnot.
  - cbn [mapWithIndex].
    assert (element = JNull \/ element = JUndefined \/ notNull element)
      as [->|[->|Helement]]
      by (destruct element; (by left) || (by right; left) ||
          (right; right; split; discriminate)); [done..|].
    rewrite !getProp_notNull by done. cbn.
    rewrite IH; [done|]. intros Hall. apply Hnot. by constructor.
Qed.

(** A run in which the file is read and the model answers: the answer is
    parsed, with the brackets of the revision, and normalized. *)
Lemma schemaA_run (env : Env) (imageUri base64Data text : string) :
  apiKeyMissing env = false ->
  readAsStringAsync env imageUri = Some base64Data ->
  generateContent env PromptItemsAndTaxes base64Data (getMimeTypeFromUri imageUri)
    = Some text ->
  let r := parsedResponse ← parseModelText (JSON_parse env) "{" "}" text;
           SchemaA.normalize parsedResponse in
  SchemaA.processBillImage env imageUri
  = ([ReadFile imageUri;
      GenerateContent PromptItemsAndTaxes base64Data (getMimeTypeFromUri imageUri)]
       ++ (wrapped r).1,
     (wrapped r).2).
Proof.
  intros Hkey Hread Hmodel r. subst r.
  unfold SchemaA.processBillImage, getBase64FromUri, askModel.
  rewrite Hkey, Hread. cbn. rewrite Hmodel. cbn.
  destruct (parseModelText _ _ _ _); cbn; [|done..].
  by destruct (SchemaA.normalize _).
Qed.

Lemma schemaB_run (env : Env) (imageUri base64Data text : string) :
  apiKeyMissing env = false ->
  readAsStringAsync env imageUri = Some base64Data ->
  generateContent env PromptItemsWithTaxFlag base64Data (getMimeTypeFromUri imageUri)
    = Some text ->
  let r := parsedItems ← parseModelText (JSON_parse env) "[" "]" text;
           SchemaB.normalize parsedItems in
  SchemaB.processBillImage env imageUri
  = ([ReadFile imageUri;
      GenerateContent PromptItemsWithTaxFlag base64Data (getMimeTypeFromUri imageUri)]
       ++ (wrapped r).1,
     (wrapped r).2).
Proof.
  intros Hkey Hread Hmodel r. subst r.
  unfold SchemaB.processBillImage, getBase64FromUri, askModel.
  rewrite Hkey, Hread. cbn. rewrite Hmodel. cbn.
  destruct (parseModelText _ _ _ _); cbn; [|done..].
  by destruct (SchemaB.normalize _).
Qed.

(** ** The handlers keep the lists within the participants *)

Lemma filter_not_id (id : string) (l : list string) pId :
  pId ∈ List.filter (fun x => negb (String.eqb x id)) l <-> pId ∈ l /\ pId <> id.
Proof.
  rewrite !list_elem_of_In, List.filter_In, negb_true_iff.
  by rewrite String.eqb_neq.
Qed.

Lemma handleRemoveParticipant_onlyParticipants id participants asg :
  onlyParticipants participants asg ->
  onlyParticipants (handleRemoveParticipant id (participants, asg)).1
                   (handleRemoveParticipant id (participants, asg)).2
  /\ forall itemId assigned,
       (handleRemoveParticipant id (participants, asg)).2 !! itemId
         = Some assigned -> id ∉ assigned.
Proof.
  intros Honly. unfold handleRemoveParticipant. cbn [fst snd]. split.
  - intros itemId assigned. rewrite lookup_fmap.
    destruct (asg !! itemId) as [l|] eqn:Hl; [|done]. intros [= <-].
    apply Forall_forall. intros pId [Hin Hne]%filter_not_id.
    specialize (Honly _ _ Hl). rewrite Forall_forall in Honly.
    apply Honly in Hin. apply list_elem_of_fmap in Hin as (p & -> & Hp).
    apply list_elem_of_fmap. exists p. split; [done|].
    apply list_elem_of_In, List.filter_In. split; [by apply list_elem_of_In|].
    by apply negb_true_iff, String.eqb_neq.
  - intros itemId assigned. rewrite lookup_fmap.
    destruct (asg !! itemId) as [l|]; [|done]. intros [= <-].
    by intros [_ ?]%filter_not_id.
Qed.

Lemma handleItemAssignmentChange_onlyParticipants
    itemId participantId checked participants asg :
  participantId ∈ participant_id <$> participants ->
  onlyParticipants participants asg ->
  onlyParticipants participants
    (handleItemAssignmentChange itemId participantId checked asg).
Proof.
  intros Hp Honly. unfold handleItemAssignmentChange.
  assert (Forall (fun pId => pId ∈ participant_id <$> participants)
                 (default [] (asg !! itemId))) as Hcurrent.
  { destruct (asg !! itemId) as [l|] eqn:Hl; [by apply (Honly _ _ Hl)|done]. }
  destruct checked; apply map_Forall_insert_2; try done.
  - apply Forall_app. split; [done|]. by constructor.
  - rewrite Forall_forall in Hcurrent |- *.
    intros pId [Hin _]%filter_not_id. by apply Hcurrent.
Qed.

(* ===================================================================== *)
(** * Part III: further properties of the code *)
(* ===================================================================== *)

(** ** The keys of the breakdown and the order of its inputs *)

Section AllocatorKeys.
Context {num : Type} `{Number num}.
Implicit Types (costs : gmap string num) (items : list (BillItem num))
  (participants : list Participant) (asg : gmap string (list string)).

Lemma accumulate_is_Some_iff entry (amounts : list num) :
  is_Some (accumulate entry amounts) <-> is_Some entry \/ amounts <> [].
Proof.
  split.
  - destruct amounts as [|a l]; [by left | by right].
  - intros [He|Hl].
    + by apply (accumulate_is_Some_app entry [] amounts).
    + destruct amounts as [|a l]; [done|]. cbn.
      apply (accumulate_is_Some_app _ [] l). by eexists.
Qed.

Lemma creditsOf_nonempty u items asg :
  creditsOf u items asg <> [] <->
  exists it, it ∈ items /\ u ∈ assignedTo asg it.
Proof.
  induction items as [|i items IH].
  - split; [done | intros (? & []%elem_of_nil & _)].
  - unfold creditsOf. cbn [flat_map]. fold (creditsOf u items asg). split.
    + intros Hne. destruct (decide (u ∈ assignedTo asg i)) as [Hu|Hu].
      * exists i. split; [left | done].
      * rewrite (occurrences_not_elem_of u) in Hne by done. cbn in Hne.
        apply IH in Hne as (it & Hin & Hit). exists it. split; [by right|done].
    + intros (it & [Heq|Hin]%elem_of_cons & Hit).
      * subst it. apply occurrences_elem_of in Hit.
        destruct (occurrences u (assignedTo asg i)); [lia | done].
      * assert (creditsOf u items asg <> []) as Hne by (apply IH; eauto).
        intros [_ ?]%app_eq_nil. done.
Qed.

Lemma costBreakdown_is_Some items participants asg u :
  is_Some (costBreakdown items participants asg !! u) <->
  u ∈ participant_id <$> participants
  \/ exists it, it ∈ items /\ u ∈ assignedTo asg it.
Proof.
  rewrite costBreakdown_lookup, accumulate_is_Some_iff. unfold initialEntry.
  split.
  - intros [Hinit|Hne].
    + case_bool_decide; [by left | by destruct Hinit].
    + destruct (creditsOf u items asg) as [|a l] eqn:Hc.
      * left. cbn in Hne. unfold sharedCreditsOf in Hne.
        destruct (_ && _); [|done]. apply occurrences_elem_of.
        destruct (occurrences u _); [done | lia].
      * right. apply creditsOf_nonempty. by rewrite Hc.
  - intros [Hin|Hit].
    + left. rewrite bool_decide_eq_true_2 by done. by eexists.
    + right. apply creditsOf_nonempty in Hit. intros [? _]%app_eq_nil. done.
Qed.

(** X1.  The breakdown has an entry for every participant, and besides
    those only for the ids that stand in the list of some item; when the
    lists name participants only, its keys are the participants' ids. *)
Theorem breakdown_keys items participants asg :
  (forall u, u ∈ dom (costBreakdown items participants asg) <->
     u ∈ participant_id <$> participants
     \/ exists it, it ∈ items /\ u ∈ assignedTo asg it)
  /\ (onlyParticipants participants asg ->
      dom (costBreakdown items participants asg)
      = list_to_set (participant_id <$> participants)).
Proof.
  split.
  - intros u. rewrite elem_of_dom. apply costBreakdown_is_Some.
  - intros Honly. apply set_eq. intros u.
    rewrite elem_of_dom, costBreakdown_is_Some, elem_of_list_to_set.
    split; [|by left]. intros [?|(it & _ & Hu)]; [done|].
    unfold assignedTo in Hu.
    destruct (asg !! item_id it) as [l|] eqn:Hl; [|by apply elem_of_nil in Hu].
    specialize (Honly _ _ Hl). rewrite Forall_forall in Honly. by apply Honly.
Qed.

Lemma occurrences_Permutation u (l l' : list string) :
  l ≡ₚ l' -> occurrences u l = occurrences u l'.
Proof. intros Hp. unfold occurrences. by rewrite Hp. Qed.

Lemma costBreakdown_lookup_Permutation items participants participants' asg asg' u :
  participants ≡ₚ participants' -> sameLists asg asg' ->
  costBreakdown items participants asg !! u
  = costBreakdown items participants' asg' !! u.
Proof.
  intros Hps Hasg. rewrite !costBreakdown_lookup.
  assert (forall it : BillItem num, assignedTo asg it ≡ₚ assignedTo asg' it)
    as Hl by (intros it; apply Hasg).
  assert (creditsOf u items asg = creditsOf u items asg') as ->.
  { induction items as [|i items IH]; [done|]. unfold creditsOf in *.
    cbn [flat_map]. rewrite IH. f_equal.
    by rewrite (occurrences_Permutation u _ _ (Hl i)), (Permutation_length (Hl i)). }
  assert (unassigned items asg = unassigned items asg') as Hun.
  { unfold unassigned. apply List.filter_ext. intros it. apply bool_decide_ext.
    pose proof (Hl it) as Hp.
    split; intros Hnil; rewrite Hnil in Hp;
      [symmetry in Hp|]; by apply Permutation_nil_r in Hp. }
  assert (initialEntry (num := num) participants u = initialEntry participants' u) as ->.
  { unfold initialEntry. apply (f_equal (fun b : bool => if b then _ else _)).
    apply bool_decide_ext. by rewrite Hps. }
  f_equal. f_equal. unfold sharedCreditsOf. rewrite Hun.
  rewrite (Permutation_length Hps).
  by rewrite (occurrences_Permutation u _ _ (fmap_Permutation participant_id _ _ Hps)).
Qed.

(** The keys of a breakdown whose lists name participants only. *)
Lemma costBreakdown_keys_onlyParticipants items participants asg u :
  onlyParticipants participants asg ->
  is_Some (costBreakdown items participants asg !! u) ->
  u ∈ participant_id <$> participants.
Proof.
  intros Honly [?|(it & _ & Hu)]%costBreakdown_is_Some; [done|].
  unfold assignedTo in Hu.
  destruct (asg !! item_id it) as [l|] eqn:Hl; [|by apply elem_of_nil in Hu].
  specialize (Honly _ _ Hl). rewrite Forall_forall in Honly. by apply Honly.
Qed.

(** X2.  The breakdown does not depend on the order of the participants, nor
    on the order of the ids within an item's list (nor on whether an item
    has an empty list or none): only the order of the items matters to the
    additions. *)
Theorem breakdown_order_irrelevant items participants participants' asg asg' :
  participants ≡ₚ participants' -> sameLists asg asg' ->
  costBreakdown items participants asg = costBreakdown items participants' asg'.
Proof.
  intros Hps Hasg. apply map_eq. intros u.
  by apply costBreakdown_lookup_Permutation.
Qed.

End AllocatorKeys.

Lemma breakdown_keys_witness :
  let items : list (BillItem float) := [plainItem "1" 10%float; plainItem "2" 4%float] in
  let participants := [person "a"; person "b"] in
  let asg : gmap string (list string) := <["1" := ["b"]]> ∅ in
  onlyParticipants participants asg
  /\ dom (costBreakdown items participants asg)
     = list_to_set (participant_id <$> participants).
Proof.
  cbv zeta.
  assert (onlyParticipants [person "a"; person "b"] (<["1" := ["b"]]> ∅))
    as Honly by (unfold onlyParticipants; decided).
  split; [exact Honly|].
  exact (proj2 (breakdown_keys (num := float)
                  [plainItem "1" 10%float; plainItem "2" 4%float]
                  [person "a"; person "b"] (<["1" := ["b"]]> ∅)) Honly).
Defined.

Lemma breakdown_order_irrelevant_witness :
  let items : list (BillItem float) := [plainItem "1" 10%float; plainItem "2" 4%float] in
  costBreakdown items [person "a"; person "b"] (<["1" := ["b"; "a"]]> ∅)
  = costBreakdown items [person "b"; person "a"]
      (<["1" := ["a"; "b"]]> (<["2" := []]> ∅)).
Proof.
  cbv zeta. apply breakdown_order_irrelevant.
  - apply Permutation_swap.
  - intros itemId.
    destruct (decide (itemId = "1")) as [->|H1]; [apply Permutation_swap|].
    destruct (decide (itemId = "2")) as [->|H2]; [reflexivity|].
    rewrite !lookup_insert_ne, !lookup_empty by done. reflexivity.
Defined.

(** ** What the breakdown adds up to, in exact arithmetic *)

(** X3.  In exact arithmetic the entries of the breakdown add up to the
    total of the bill as soon as there is a participant, whatever the lists
    hold (ids that name nobody, repeated ids, items without a list); with no
    participant the items without a list are left out of it. *)
Theorem breakdown_distributes_bill (items : list (BillItem Qc)) participants asg :
  sumValues (costBreakdown items participants asg)
  = (totalBillAmount items
     - match participants with
       | [] => totalBillAmount (unassigned items asg)
       | _ :: _ => 0
       end)%Qc.
Proof.
  destruct participants as [|p ps].
  - unfold costBreakdown.
    destruct (foldl (assignItem asg) _ items) as [costs ids] eqn:Hloop.
    pose proof (assignItems_sum asg items ∅ ∅) as Hsum.
    cbn [foldl] in Hloop. rewrite Hloop in Hsum. cbn [fst] in Hsum.
    cbn [length Nat.ltb Nat.leb]. rewrite andb_false_r, Hsum.
    change (sumValues ∅) with 0%Qc. ring.
  - rewrite costBreakdown_sum by (by right). ring.
Qed.

Lemma sumValues_over_keys (costs : gmap string Qc) (keys : list string) :
  NoDup keys -> (forall k, is_Some (costs !! k) -> k ∈ keys) ->
  sumValues costs = sumList ((fun k => default 0%Qc (costs !! k)) <$> keys).
Proof.
  intros Hnodup. revert costs.
  induction Hnodup as [|k keys Hk Hnodup IH]; intros costs Hdom.
  - cbn. apply sumValues_zero. intros k x Hx.
    destruct (not_elem_of_nil k). apply Hdom. by eexists.
  - cbn [fmap list_fmap sumList foldr].
    fold (sumList ((fun k => default 0%Qc (costs !! k)) <$> keys)).
    assert (sumValues costs
            = (default 0 (costs !! k) + sumValues (delete k costs))%Qc) as ->.
    { destruct (costs !! k) as [x|] eqn:Hx.
      - by apply sumValues_delete.
      - rewrite delete_id by done. cbn. ring. }
    f_equal. rewrite (IH (delete k costs)).
    + f_equal. apply list_fmap_ext. intros i j Hj.
      apply list_elem_of_lookup_2 in Hj.
      rewrite lookup_delete_ne; [done|]. intros Heq. apply Hk. by rewrite Heq.
    + intros j [x Hj]. destruct (decide (j = k)) as [->|Hne].
      * by rewrite lookup_delete_eq in Hj.
      * rewrite lookup_delete_ne in Hj by done.
        assert (j ∈ k :: keys) as Hin by (apply Hdom; by eexists).
        by apply elem_of_cons in Hin as [?|?].
Qed.

(** The amounts of the summary screen are the values of the breakdown. *)
Lemma unroundedAmounts_values (items : list (BillItem Qc)) participants asg :
  NoDup (participant_id <$> participants) ->
  onlyParticipants participants asg ->
  sumList (unroundedAmounts items participants asg)
  = sumValues (costBreakdown items participants asg).
Proof.
  intros Hnodup Honly.
  rewrite (sumValues_over_keys _ (participant_id <$> participants)); [|done|].
  - unfold unroundedAmounts. rewrite <- list_fmap_compose. f_equal.
    apply list_fmap_ext. intros _ p _. cbn. apply Qc_orZero.
  - intros k Hk. by apply (costBreakdown_keys_onlyParticipants items _ asg).
Qed.

(** X4.  When the lists name participants only and the participants have
    distinct ids, the numbers [costBreakdown[p.id] || 0] of the participants,
    which the summary screen rounds to two decimals to show them, add up,
    in exact arithmetic and before that rounding, to [totalBillAmount]. *)
Theorem unrounded_amounts_add_up (items : list (BillItem Qc)) participants asg :
  participants <> [] ->
  NoDup (participant_id <$> participants) ->
  onlyParticipants participants asg ->
  sumList (unroundedAmounts items participants asg) = totalBillAmount items.
Proof.
  intros Hne Hnodup Honly.
  rewrite unroundedAmounts_values by done. apply costBreakdown_sum. by right.
Qed.

Lemma unrounded_amounts_add_up_witness :
  let items : list (BillItem Qc) :=
    [plainItem "1" (Q2Qc 10); plainItem "2" (Q2Qc (7 # 2)); plainItem "3" (Q2Qc 1)] in
  let participants := [person "a"; person "b"; person "c"] in
  let asg : gmap string (list string) :=
    <["1" := ["a"; "b"]]> (<["2" := ["c"]]> ∅) in
  sumList (unroundedAmounts items participants asg) = totalBillAmount items.
Proof.
  cbv zeta. apply unrounded_amounts_add_up.
  - discriminate.
  - decided.
  - unfold onlyParticipants. decided.
Defined.

(** The renderings with two decimals that the screen shows need not add
    up: 10 among three participants is shown as 3.33, 3.33 and 3.33 under
    the total 10.00. *)
Lemma shown_amounts_need_not_add_up :
  let items : list (BillItem float) := [plainItem "1" 10%float] in
  let participants := [person "a"; person "b"; person "c"] in
  unroundedAmounts items participants ∅
  = [3.3333333333333335%float; 3.3333333333333335%float; 3.3333333333333335%float]
  /\ shownAmounts items participants ∅ = [3.33%float; 3.33%float; 3.33%float]
  /\ shownTotal items = 10%float
  /\ toFixed2 (3.33 + 3.33 + 3.33) = 9.99%float.
Proof. cbv zeta. repeat split; vm_compute; reflexivity. Qed.

(** ** The handlers of the lists *)

(** X5.  Removing a participant from a state whose lists name participants
    only leaves such a state: the id is in no list any more and names no
    participant, the items keep their lists otherwise, and the breakdown of
    the new state has an entry for each remaining participant and for
    nobody else. *)
Theorem remove_participant_consistent id participants asg
    (items : list (BillItem float)) :
  onlyParticipants participants asg ->
  let state' := handleRemoveParticipant id (participants, asg) in
  onlyParticipants state'.1 state'.2
  /\ (forall itemId assigned, state'.2 !! itemId = Some assigned -> id ∉ assigned)
  /\ (id ∉ participant_id <$> state'.1)
  /\ (forall itemId pId, pId <> id ->
        pId ∈ default [] (state'.2 !! itemId) <-> pId ∈ default [] (asg !! itemId))
  /\ dom (costBreakdown items state'.1 state'.2)
     = list_to_set (participant_id <$> state'.1).
Proof.
  intros Honly state'.
  destruct (handleRemoveParticipant_onlyParticipants id participants asg Honly)
    as [Honly' Hgone].
  split; [done|]. split; [done|]. split; [|split].
  - subst state'. unfold handleRemoveParticipant. cbn [fst].
    intros (p & Hid & Hp)%list_elem_of_fmap.
    apply list_elem_of_In, List.filter_In in Hp as [_ Hp].
    apply negb_true_iff, String.eqb_neq in Hp. by rewrite <- Hid in Hp.
  - intros itemId pId Hne. subst state'. unfold handleRemoveParticipant.
    cbn [snd]. rewrite lookup_fmap. destruct (asg !! itemId) as [l|]; [|done].
    cbn. rewrite filter_not_id. tauto.
  - apply set_eq. intros u.
    rewrite elem_of_dom, costBreakdown_is_Some, elem_of_list_to_set.
    split; [|by left]. intros [?|(it & _ & Hu)]; [done|].
    unfold assignedTo in Hu.
    destruct (state'.2 !! item_id it) as [l|] eqn:Hl; [|by apply elem_of_nil in Hu].
    specialize (Honly' _ _ Hl). rewrite Forall_forall in Honly'. by apply Honly'.
Qed.

Lemma remove_participant_consistent_witness :
  let participants := [person "a"; person "b"] in
  let asg : gmap string (list string) :=
    <["1" := ["a"; "b"]]> (<["2" := ["b"]]> ∅) in
  onlyParticipants participants asg
  /\ dom (costBreakdown [plainItem "1" 10%float; plainItem "2" 4%float]
            (handleRemoveParticipant "b" (participants, asg)).1
            (handleRemoveParticipant "b" (participants, asg)).2)
     = list_to_set
         (participant_id <$> (handleRemoveParticipant "b" (participants, asg)).1).
Proof.
  cbv zeta.
  assert (onlyParticipants [person "a"; person "b"]
            (<["1" := ["a"; "b"]]> (<["2" := ["b"]]> ∅))) as Honly
    by (unfold onlyParticipants; decided).
  split; [exact Honly|].
  exact (proj2 (proj2 (proj2 (proj2
    (remove_participant_consistent "b" [person "a"; person "b"]
       (<["1" := ["a"; "b"]]> (<["2" := ["b"]]> ∅))
       [plainItem "1" 10%float; plainItem "2" 4%float] Honly))))).
Defined.

(** X6.  A change of one box touches the list of its item only; ticking
    appends the id at the end of the list, without looking whether it is
    there already, so that ticking twice lists it twice; unticking removes
    every occurrence of the id; the membership of the other ids does not
    change; and the lists keep naming participants only when the id is a
    participant's. *)
Theorem assignment_change_effect itemId participantId checked
    (asg : gmap string (list string)) :
  let asg' := handleItemAssignmentChange itemId participantId checked asg in
  (forall other, other <> itemId -> asg' !! other = asg !! other)
  /\ asg' !! itemId
     = Some (if checked then default [] (asg !! itemId) ++ [participantId]
             else List.filter (fun pId => negb (String.eqb pId participantId))
                              (default [] (asg !! itemId)))
  /\ (participantId ∈ default [] (asg' !! itemId) <-> checked = true)
  /\ (forall pId, pId <> participantId ->
        pId ∈ default [] (asg' !! itemId) <-> pId ∈ default [] (asg !! itemId))
  /\ handleItemAssignmentChange itemId participantId true
       (handleItemAssignmentChange itemId participantId true asg) !! itemId
     = Some (default [] (asg !! itemId) ++ [participantId; participantId])
  /\ (forall participants,
        participantId ∈ participant_id <$> participants ->
        onlyParticipants participants asg -> onlyParticipants participants asg').
Proof.
  intros asg'. subst asg'. unfold handleItemAssignmentChange.
  split; [|split; [|split; [|split; [|split]]]].
  - intros other Hne. destruct checked; by rewrite lookup_insert_ne.
  - destruct checked; by rewrite lookup_insert_eq.
  - destruct checked; rewrite lookup_insert_eq; cbn.
    + split; [done|]. intros _. apply elem_of_app. right. left.
    + rewrite filter_not_id. split; [tauto | done].
  - intros pId Hne. destruct checked; rewrite lookup_insert_eq; cbn.
    + rewrite elem_of_app, list_elem_of_singleton. tauto.
    + rewrite filter_not_id. tauto.
  - rewrite !lookup_insert_eq. cbn. by rewrite <- app_assoc.
  - intros participants Hp Honly.
    by apply (handleItemAssignmentChange_onlyParticipants
                itemId participantId checked participants asg).
Qed.

Lemma filter_not_id_absent (id : string) (l : list string) :
  id ∉ l -> List.filter (fun x => negb (String.eqb x id)) l = l.
Proof.
  induction l as [|x l IH]; [done|]. intros Hno. cbn.
  destruct (String.eqb_spec x id) as [->|Hne].
  - destruct Hno. left.
  - cbn. f_equal. apply IH. intros ?. apply Hno. by right.
Qed.

Lemma filter_not_id_Permutation (id : string) (l : list string) :
  NoDup l -> id ∈ l ->
  List.filter (fun x => negb (String.eqb x id)) l ++ [id] ≡ₚ l.
Proof.
  induction 1 as [|x l Hx Hnodup IH]; intros Hin; [by apply elem_of_nil in Hin|].
  cbn. destruct (String.eqb_spec x id) as [->|Hne].
  - cbn. rewrite filter_not_id_absent by done.
    symmetry. apply Permutation_cons_append.
  - cbn. apply elem_of_cons in Hin as [?|Hin]; [congruence|].
    by rewrite (IH Hin).
Qed.

Lemma NoDup_snoc {A} (l : list A) (x : A) : NoDup l -> x ∉ l -> NoDup (l ++ [x]).
Proof.
  intros Hnodup Hx. apply NoDup_app.
  split; [done|]. split; [|apply NoDup_singleton].
  intros y Hy ->%list_elem_of_singleton. done.
Qed.

Lemma toggleAssignment_insert itemId participantId (asg : gmap string (list string)) :
  toggleAssignment itemId participantId asg
  = <[itemId :=
        if bool_decide (participantId ∈ default [] (asg !! itemId))
        then List.filter (fun pId => negb (String.eqb pId participantId))
                         (default [] (asg !! itemId))
        else default [] (asg !! itemId) ++ [participantId]]> asg.
Proof.
  unfold toggleAssignment, handleItemAssignmentChange. by case_bool_decide.
Qed.

Lemma toggle_toggle_lookup itemId participantId (asg : gmap string (list string)) :
  toggleAssignment itemId participantId
    (toggleAssignment itemId participantId asg) !! itemId
  = Some (if bool_decide (participantId ∈ default [] (asg !! itemId))
          then List.filter (fun pId => negb (String.eqb pId participantId))
                           (default [] (asg !! itemId)) ++ [participantId]
          else default [] (asg !! itemId)).
Proof.
  rewrite (toggleAssignment_insert itemId participantId (toggleAssignment _ _ _)).
  rewrite lookup_insert_eq. f_equal.
  rewrite toggleAssignment_insert, lookup_insert_eq. cbn [default].
  unfold Datatypes.id. set (l := default [] (asg !! itemId)).
  destruct (decide (participantId ∈ l)) as [Hin|Hin].
  - rewrite (bool_decide_eq_true_2 _ Hin).
    assert (participantId
              ∉ List.filter (fun pId => negb (String.eqb pId participantId)) l)
      as Hout by (rewrite filter_not_id; tauto).
    by rewrite (bool_decide_eq_false_2 _ Hout).
  - rewrite (bool_decide_eq_false_2 _ Hin).
    assert (participantId ∈ l ++ [participantId]) as Hnow
      by (apply elem_of_app; right; left).
    rewrite (bool_decide_eq_true_2 _ Hnow). unfold Datatypes.id.
    rewrite List.filter_app. cbn. rewrite String.eqb_refl. cbn.
    by rewrite app_nil_r, filter_not_id_absent.
Qed.

(** X7.  The box of a participant on an item's card flips the membership
    of the participant in the item's list, and changes the membership of
    nobody else and no other list.  Pressed twice, it leaves the list as it
    was when the participant was not in it, and otherwise puts the
    participant once at its end, whatever the occurrences were.  So, when
    the list had no repetition, it has none after a press, and two presses
    give back the list up to the order of its ids, with the same breakdown
    for every bill. *)
Theorem toggle_assignment itemId participantId (asg : gmap string (list string)) :
  let assigned := default [] (asg !! itemId) in
  let asg' := toggleAssignment itemId participantId asg in
  let asg'' := toggleAssignment itemId participantId asg' in
  (participantId ∈ default [] (asg' !! itemId) <-> participantId ∉ assigned)
  /\ (forall pId, pId <> participantId ->
        pId ∈ default [] (asg' !! itemId) <-> pId ∈ assigned)
  /\ (forall other, other <> itemId -> asg' !! other = asg !! other)
  /\ asg'' !! itemId
     = Some (if bool_decide (participantId ∈ assigned)
             then List.filter (fun pId => negb (String.eqb pId participantId))
                              assigned ++ [participantId]
             else assigned)
  /\ (forall other, other <> itemId -> asg'' !! other = asg !! other)
  /\ (NoDup assigned ->
      NoDup (default [] (asg' !! itemId))
      /\ sameLists asg'' asg
      /\ forall (num : Type) (N : Number num) (items : list (BillItem num))
                participants,
           costBreakdown items participants asg''
           = costBreakdown items participants asg).
Proof.
  intros assigned asg' asg''.
  assert (asg' !! itemId
          = Some (if bool_decide (participantId ∈ assigned)
                  then List.filter (fun pId => negb (String.eqb pId participantId))
                                   assigned
                  else assigned ++ [participantId])) as Hnew.
  { subst asg'. by rewrite toggleAssignment_insert, lookup_insert_eq. }
  assert (forall other, other <> itemId -> asg' !! other = asg !! other) as Hother.
  { intros other Hne. subst asg'.
    by rewrite toggleAssignment_insert, lookup_insert_ne. }
  assert (forall other, other <> itemId -> asg'' !! other = asg !! other) as Hother'.
  { intros other Hne. subst asg''.
    rewrite toggleAssignment_insert, lookup_insert_ne by done. by apply Hother. }
  pose proof (toggle_toggle_lookup itemId participantId asg) as Htwice.
  fold asg' asg'' assigned in Htwice.
  split; [|split; [|split; [done|split; [done|split; [done|]]]]].
  - rewrite Hnew. cbn. case_bool_decide as Hin.
    + rewrite filter_not_id. tauto.
    + rewrite elem_of_app, list_elem_of_singleton. tauto.
  - intros pId Hne. rewrite Hnew. cbn. case_bool_decide as Hin.
    + rewrite filter_not_id. tauto.
    + rewrite elem_of_app, list_elem_of_singleton. tauto.
  - intros Hnodup.
    assert (sameLists asg'' asg) as Hsame.
    { intros other. destruct (decide (other = itemId)) as [->|Hne].
      - rewrite Htwice. cbn [default]. fold assigned. case_bool_decide as Hin.
        + by apply filter_not_id_Permutation.
        + done.
      - by rewrite Hother'. }
    split; [|split; [done|]].
    + rewrite Hnew. cbn. case_bool_decide as Hin.
      * by apply NoDup_ListNoDup, List.NoDup_filter, NoDup_ListNoDup.
      * by apply NoDup_snoc.
    + intros num N items participants. apply map_eq. intros u.
      by apply costBreakdown_lookup_Permutation.
Qed.

Lemma toggle_assignment_witness :
  let asg : gmap string (list string) := <["1" := ["a"; "b"]]> ∅ in
  NoDup (default [] (asg !! "1"))
  /\ toggleAssignment "1" "a" asg !! "1" = Some ["b"]
  /\ toggleAssignment "1" "a" (toggleAssignment "1" "a" asg) !! "1"
     = Some ["b"; "a"]
  /\ costBreakdown [plainItem "1" 9%float] [person "a"; person "b"]
       (toggleAssignment "1" "a" (toggleAssignment "1" "a" asg))
     = costBreakdown [plainItem "1" 9%float] [person "a"; person "b"] asg.
Proof.
  cbv zeta.
  assert (NoDup (default [] ((<["1" := ["a"; "b"]]> ∅ : gmap string (list string))
                             !! "1"))) as Hnodup by decided.
  split; [exact Hnodup|]. split; [vm_compute; reflexivity|].
  split; [exact (proj1 (proj2 (proj2 (proj2
            (toggle_assignment "1" "a" (<["1" := ["a"; "b"]]> ∅)))))) |].
  exact (proj2 (proj2 (proj2 (proj2 (proj2 (proj2 (proj2
           (toggle_assignment "1" "a" (<["1" := ["a"; "b"]]> ∅)))))) Hnodup))
           float _ [plainItem "1" 9%float] [person "a"; person "b"]).
Defined.

(** ** Adding a participant *)

(** The three ways [handleAddParticipant] ends. *)
Lemma handleAddParticipant_cases (trim : string -> string) now participants text :
  let result := handleAddParticipant trim now (participants, text) in
  result = (participants, text, [])
  \/ result = (participants, text,
               [Alerted "Participant exists"
                        "This participant name is already added."])
     /\ trim text ∈ participant_name <$> participants
  \/ result = (participants
                 ++ [{| participant_id := now; participant_name := trim text |}],
               "", [])
     /\ trim text <> ""
     /\ trim text ∉ participant_name <$> participants.
Proof.
  cbv zeta. unfold handleAddParticipant. cbn [fst snd].
  set (name := trim text).
  assert (existsb (fun p => String.eqb (participant_name p) name) participants
          = true <-> name ∈ participant_name <$> participants) as Hfound.
  { rewrite existsb_exists, list_elem_of_fmap. split.
    - intros (p & Hp & Heq). exists p. apply String.eqb_eq in Heq.
      split; [done | by apply list_elem_of_In].
    - intros (p & Heq & Hp). exists p.
      split; [by apply list_elem_of_In | by apply String.eqb_eq]. }
  destruct (String.eqb_spec name "") as [Hempty|Hempty];
    destruct (existsb _ participants) eqn:Hex; cbn [negb andb].
  - right. left. split; [done|]. by apply Hfound.
  - by left.
  - right. left. split; [done|]. by apply Hfound.
  - right. right. split; [done|]. split; [done|].
    intros Hin. apply Hfound in Hin. congruence.
Qed.

(** X8.  Whatever [trim] is: when the trimmed text is not empty and is
    nobody's name, [handleAddParticipant] adds one participant at the end
    of the list, with the clock's reading as id and the trimmed text as
    name, and empties the field; when the trimmed text is somebody's name,
    it changes nothing and alerts; when it is empty (and nobody's name), it
    does nothing.  So the names stay distinct and not empty, and the ids
    stay distinct when the clock gives an id that is not in use. *)
Theorem add_participant_keeps_names_distinct (trim : string -> string)
    (now : string) (participants : list Participant) (text : string) :
  let name := trim text in
  let result := handleAddParticipant trim now (participants, text) in
  (name <> "" -> name ∉ participant_name <$> participants ->
     result = (participants
                 ++ [{| participant_id := now; participant_name := name |}],
               "", []))
  /\ (name ∈ participant_name <$> participants ->
      result = (participants, text,
                [Alerted "Participant exists"
                         "This participant name is already added."]))
  /\ (name = "" -> name ∉ participant_name <$> participants ->
      result = (participants, text, []))
  /\ (NoDup (participant_name <$> participants) ->
      NoDup (participant_name <$> result.1.1))
  /\ ("" ∉ participant_name <$> participants ->
      "" ∉ participant_name <$> result.1.1)
  /\ (now ∉ participant_id <$> participants ->
      NoDup (participant_id <$> participants) ->
      NoDup (participant_id <$> result.1.1)).
Proof.
  intros name result.
  pose proof (handleAddParticipant_cases trim now participants text) as Hcases.
  fold result name in Hcases.
  split; [|split; [|split; [|split; [|split]]]].
  - intros Hne Hnew.
    destruct Hcases as [Hr|[[_ Hin]|[Hr _]]]; [|done..].
    exfalso. revert Hr. subst result. unfold handleAddParticipant. cbn [fst snd].
    fold name. destruct (String.eqb_spec name "") as [?|_]; [done|].
    destruct (existsb _ participants); cbn [negb andb]; [done|].
    intros [= Hr _]. apply (f_equal length) in Hr.
    rewrite length_app in Hr. cbn in Hr. lia.
  - intros Hin.
    destruct Hcases as [Hr|[[Hr _]|(_ & _ & Hnew)]]; [|done..].
    exfalso. revert Hr. subst result. unfold handleAddParticipant. cbn [fst snd].
    fold name.
    assert (existsb (fun p => String.eqb (participant_name p) name) participants
            = true) as ->.
    { apply existsb_exists. apply list_elem_of_fmap in Hin as (p & Heq & Hp).
      exists p. split; [by apply list_elem_of_In | by apply String.eqb_eq]. }
    rewrite andb_false_r. done.
  - intros Hempty Hnew.
    destruct Hcases as [Hr|[[_ Hin]|(_ & Hne & _)]]; done.
  - destruct Hcases as [->|[[-> _]|(-> & Hne & Hnew)]]; cbn [fst snd]; [done..|].
    intros Hnodup. rewrite fmap_app. by apply NoDup_snoc.
  - destruct Hcases as [->|[[-> _]|(-> & Hne & Hnew)]]; cbn [fst snd]; [done..|].
    intros Hno. rewrite fmap_app. intros [?|Hin]%elem_of_app; [done|].
    apply list_elem_of_singleton in Hin. done.
  - destruct Hcases as [->|[[-> _]|(-> & Hne & Hnew)]]; cbn [fst snd]; [done..|].
    intros Hnow Hnodup. rewrite fmap_app. by apply NoDup_snoc.
Qed.

Lemma add_participant_keeps_names_distinct_witness :
  let participants := [person "Ann"; person "Bob"] in
  ("Cid" <> "" /\ "Cid" ∉ participant_name <$> participants)
  /\ handleAddParticipant (fun s => s) "1700000000000" (participants, "Cid")
     = ([person "Ann"; person "Bob";
         {| participant_id := "1700000000000"; participant_name := "Cid" |}],
        "", [])
  /\ handleAddParticipant (fun s => s) "1700000000000" (participants, "Bob")
     = (participants, "Bob",
        [Alerted "Participant exists" "This participant name is already added."]).
Proof.
  cbv zeta.
  assert ("Cid" <> "") as Hne by discriminate.
  assert ("Cid" ∉ participant_name <$> [person "Ann"; person "Bob"]) as Hnew
    by decided.
  assert ("Bob" ∈ participant_name <$> [person "Ann"; person "Bob"]) as Hold
    by decided.
  split; [by split|]. split.
  - exact (proj1 (add_participant_keeps_names_distinct (fun s => s)
                    "1700000000000" [person "Ann"; person "Bob"] "Cid") Hne Hnew).
  - exact (proj1 (proj2 (add_participant_keeps_names_distinct (fun s => s)
                    "1700000000000" [person "Ann"; person "Bob"] "Bob")) Hold).
Defined.

(** ** Processing the bill *)

Section ProcessBillFacts.
Context {num : Type}.
Variable processImage
  : string -> list Event * (Error + option (list (BillItem num))).
Variable engineMessage : Error -> string.
Variable dateNow : nat -> string.

Lemma initialAssignments_lookup (items : list (BillItem num)) itemId :
  initialAssignments items !! itemId
  = if bool_decide (itemId ∈ item_id <$> items) then Some [] else None.
Proof.
  unfold initialAssignments.
  assert (forall m : gmap string (list string),
    foldl (fun assignments it => <[item_id it := []]> assignments) m items
      !! itemId
    = if bool_decide (itemId ∈ item_id <$> items) then Some []
      else m !! itemId) as Hfold.
  { induction items as [|i items IH]; intros m.
    - cbn. rewrite bool_decide_eq_false_2; [done | apply not_elem_of_nil].
    - cbn [foldl]. rewrite IH, fmap_cons.
      destruct (decide (itemId = item_id i)) as [->|Hne].
      + rewrite lookup_insert_eq.
        rewrite (bool_decide_eq_true_2 (_ ∈ _ :: _)); [|left].
        by case_bool_decide.
      + rewrite lookup_insert_ne by done. case_bool_decide as Hin.
        * rewrite bool_decide_eq_true_2; [done | by right].
        * rewrite bool_decide_eq_false_2; [done|].
          intros [?|?]%elem_of_cons; done. }
  by rewrite Hfold, lookup_empty.
Qed.

Lemma initialAssignments_noneAssigned (items items' : list (BillItem num)) :
  noneAssigned items' (initialAssignments items) = true.
Proof.
  apply noneAssigned_spec. intros it _. unfold assignedTo.
  rewrite initialAssignments_lookup. by case_bool_decide.
Qed.

Lemma initialAssignments_onlyParticipants (items : list (BillItem num))
    participants :
  onlyParticipants participants (initialAssignments items).
Proof.
  intros itemId l. rewrite initialAssignments_lookup.
  case_bool_decide; [|done]. intros [= <-]. constructor.
Qed.

Lemma withIds_length k (items : list (BillItem num)) :
  length (withIds dateNow k items) = length items.
Proof.
  revert k. induction items as [|it items IH]; intros k; [done|]. cbn.
  destruct (String.eqb _ _); cbn; by rewrite IH.
Qed.

Lemma withIds_prices k (items : list (BillItem num)) :
  item_price <$> withIds dateNow k items = item_price <$> items.
Proof.
  revert k. induction items as [|it items IH]; intros k; [done|]. cbn.
  destruct (String.eqb _ _); cbn; by rewrite IH.
Qed.

Lemma withIds_with_ids k (items : list (BillItem num)) :
  (forall item, item ∈ items -> item_id item <> "") ->
  withIds dateNow k items = items.
Proof.
  induction items as [|item items IH]; intros Hids; [done|]. cbn.
  destruct (String.eqb_spec (item_id item) "") as [Hempty|_].
  - by destruct (Hids item (list_elem_of_here _ _)).
  - f_equal. apply IH. intros it Hit. apply Hids. by right.
Qed.

(** X9.  [handleProcessBill] never touches the participants, the image and
    the text field.  Without an image, or without participants, it changes
    nothing and only alerts.  Otherwise: when the extraction gives items,
    the state is at the step of the assignment, not busy, and holds one
    item for each of them, with the same prices (the very items when each
    has an id), every item with an empty list and no other list in the
    mapping, and the success is alerted after the extractor's events; when
    the extraction gives no items or fails, the state is the old one, not
    busy, and the failure is logged and alerted, as a matter of the
    configuration when the message says that the API key is not
    configured. *)
Theorem process_bill_outcomes (st : AppState num) :
  let result := handleProcessBill processImage engineMessage dateNow st in
  (st_participants result.1 = st_participants st
   /\ st_billImageUri result.1 = st_billImageUri st
   /\ st_newParticipantName result.1 = st_newParticipantName st)
  /\ (st_billImageUri st = None \/ st_billImageUri st = Some "" ->
      result = (st, [Alerted "Error" "Please upload a bill image."]))
  /\ (forall uri, st_billImageUri st = Some uri -> uri <> "" ->
      st_participants st = [] ->
      result = (st, [Alerted "Error" "Please add at least one participant."]))
  /\ (forall uri events items,
      st_billImageUri st = Some uri -> uri <> "" -> st_participants st <> [] ->
      processImage uri = (events, inr (Some items)) ->
      st_appStep result.1 = assign_items
      /\ st_isLoading result.1 = false
      /\ length (st_extractedItems result.1) = length items
      /\ item_price <$> st_extractedItems result.1 = item_price <$> items
      /\ ((forall item, item ∈ items -> item_id item <> "") ->
          st_extractedItems result.1 = items)
      /\ dom (st_itemAssignments result.1)
         = list_to_set (item_id <$> st_extractedItems result.1)
      /\ (forall item, item ∈ st_extractedItems result.1 ->
            st_itemAssignments result.1 !! item_id item = Some [])
      /\ result.2
         = (FromExtractor <$> events)
             ++ [Alerted "Success" "Bill items extracted successfully."])
  /\ (forall uri events,
      st_billImageUri st = Some uri -> uri <> "" -> st_participants st <> [] ->
      processImage uri = (events, inr None) ->
      result
      = (setIsLoading false st,
         (FromExtractor <$> events)
           ++ [Logged "Error extracting bill items:";
               Alerted "Error"
                 "Failed to process bill: Failed to extract items or no items found."]))
  /\ (forall uri events e,
      st_billImageUri st = Some uri -> uri <> "" -> st_participants st <> [] ->
      processImage uri = (events, inl e) ->
      result
      = (setIsLoading false st,
         (FromExtractor <$> events)
           ++ [Logged "Error in extractBillItems:";
               Logged "Error extracting bill items:";
               if stringIncludes "API key not configured"
                    (errorMessage engineMessage e)
               then Alerted "Configuration Error"
                      "Please set up your Gemini API key in the config file."
               else Alerted "Error"
                      (String.append "Failed to process bill: "
                         (errorMessage engineMessage e))])).
Proof.
  intros result.
  assert (forall uri, st_billImageUri st = Some uri -> uri <> "" ->
            st_participants st <> [] ->
            result = processSettled engineMessage dateNow (processImage uri)
                       (setIsLoading true st)) as Hrun.
  { intros uri Huri Hne Hps. subst result. unfold handleProcessBill.
    rewrite Huri. destruct (String.eqb_spec uri "") as [?|_]; [done|].
    by destruct (st_participants st). }
  split; [|split; [|split; [|split; [|split]]]].
  - subst result. unfold handleProcessBill.
    destruct (st_billImageUri st) as [uri|] eqn:Huri; [|by cbn].
    destruct (String.eqb uri ""); [by cbn|].
    destruct (length (st_participants st) =? 0)%nat; [by cbn|].
    unfold processSettled, processFailed.
    by destruct (processImage uri) as [events [e|[items|]]]; cbn.
  - intros [Huri|Huri]; subst result; unfold handleProcessBill; by rewrite Huri.
  - intros uri Huri Hne Hps. subst result. unfold handleProcessBill.
    rewrite Huri, Hps. by destruct (String.eqb_spec uri "").
  - intros uri events items Huri Hne Hps Himage.
    rewrite (Hrun uri) by done. unfold processSettled. rewrite Himage.
    cbn [fst snd st_isLoading st_appStep st_extractedItems st_itemAssignments].
    split; [done|]. split; [done|].
    split; [apply withIds_length|]. split; [apply withIds_prices|].
    split; [apply withIds_with_ids|]. split; [|split; [|done]].
    + apply set_eq. intros k.
      rewrite elem_of_dom, initialAssignments_lookup, elem_of_list_to_set.
      case_bool_decide; split; intros Hk;
        first [done | by eexists | by destruct Hk].
    + intros item Hitem. rewrite initialAssignments_lookup.
      rewrite bool_decide_eq_true_2; [done|]. by apply list_elem_of_fmap_2.
  - intros uri events Huri Hne Hps Himage.
    rewrite (Hrun uri) by done. unfold processSettled. by rewrite Himage.
  - intros uri events e Huri Hne Hps Himage.
    rewrite (Hrun uri) by done. unfold processSettled. by rewrite Himage.
Qed.

(** X10.  An extractor that fails for want of the API key is answered by the
    alert of the configuration, not by the general one, whatever the
    messages of the engine's errors are; the state keeps its items, its
    lists and its step, and the busy flag is off. *)
Theorem missing_key_alert (st : AppState num) uri events :
  st_billImageUri st = Some uri -> uri <> "" -> st_participants st <> [] ->
  processImage uri = (events, inl (FailedToProcess ApiKeyNotConfigured)) ->
  handleProcessBill processImage engineMessage dateNow st
  = (setIsLoading false st,
     (FromExtractor <$> events)
       ++ [Logged "Error in extractBillItems:";
           Logged "Error extracting bill items:";
           Alerted "Configuration Error"
                   "Please set up your Gemini API key in the config file."]).
Proof.
  intros Huri Hne Hps Hfail. unfold handleProcessBill. rewrite Huri.
  destruct (String.eqb_spec uri "") as [?|_]; [done|].
  destruct (st_participants st) as [|p ps] eqn:Hp; [done|].
  cbn [length Nat.eqb]. unfold processSettled. rewrite Hfail. cbn [fst snd].
  unfold processFailed.
  assert (stringIncludes "API key not configured"
            (errorMessage engineMessage (FailedToProcess ApiKeyNotConfigured))
          = true) as -> by (vm_compute; reflexivity).
  done.
Qed.

End ProcessBillFacts.

Lemma process_bill_outcomes_witness :
  let st : AppState float :=
    {| st_appStep := upload_participants; st_billImageUri := Some "bill.jpg";
       st_extractedItems := []; st_participants := [person "a"];
       st_newParticipantName := ""; st_itemAssignments := ∅;
       st_isLoading := false |} in
  let items := [plainItem "1" 10%float; plainItem "2" 4%float] in
  let processImage := fun _ : string =>
    (@nil Event, @inr Error _ (Some items)) in
  let result := handleProcessBill processImage (fun _ => "") (fun _ => "0") st in
  st_appStep result.1 = assign_items
  /\ st_extractedItems result.1 = items
  /\ st_itemAssignments result.1 = <["1" := []]> (<["2" := []]> ∅).
Proof.
  cbv zeta.
  destruct (proj1 (proj2 (proj2 (proj2 (process_bill_outcomes
    (fun _ : string =>
       (@nil Event,
        @inr Error _ (Some [plainItem "1" 10%float; plainItem "2" 4%float])))
    (fun _ => "") (fun _ => "0")
    {| st_appStep := upload_participants; st_billImageUri := Some "bill.jpg";
       st_extractedItems := []; st_participants := [person "a"];
       st_newParticipantName := ""; st_itemAssignments := ∅;
       st_isLoading := false |}))))
    "bill.jpg" [] [plainItem "1" 10%float; plainItem "2" 4%float]
    eq_refl ltac:(discriminate) ltac:(discriminate) eq_refl)
    as (Hstep & _ & _ & _ & Hitems & _ & _ & _).
  split; [exact Hstep|]. split.
  - apply Hitems. intros item Hitem.
    apply elem_of_cons in Hitem as [->|Hitem]; [discriminate|].
    apply list_elem_of_singleton in Hitem as ->. discriminate.
  - vm_compute. reflexivity.
Defined.

Lemma missing_key_alert_witness :
  let st : AppState float :=
    {| st_appStep := upload_participants; st_billImageUri := Some "bill.jpg";
       st_extractedItems := []; st_participants := [person "a"];
       st_newParticipantName := ""; st_itemAssignments := ∅;
       st_isLoading := false |} in
  let processImage := fun _ : string =>
    ([ConsoleError "Error processing bill image:"],
     @inl Error (option (list (BillItem float)))
       (FailedToProcess ApiKeyNotConfigured)) in
  (handleProcessBill processImage (fun _ => "") (fun _ => "0") st).1
  = setIsLoading false st.
Proof.
  cbv zeta.
  refine (f_equal fst (missing_key_alert
    (fun _ : string =>
       ([ConsoleError "Error processing bill image:"],
        @inl Error (option (list (BillItem float)))
          (FailedToProcess ApiKeyNotConfigured)))
    (fun _ => "") (fun _ => "0")
    {| st_appStep := upload_participants; st_billImageUri := Some "bill.jpg";
       st_extractedItems := []; st_participants := [person "a"];
       st_newParticipantName := ""; st_itemAssignments := ∅;
       st_isLoading := false |} "bill.jpg"
    [ConsoleError "Error processing bill image:"] eq_refl _ _ eq_refl)).
  - discriminate.
  - discriminate.
Defined.

(** [handleProcessBill] and then the summary, nothing ticked: the bill is
    split equally. *)
Lemma totalBillAmount_prices {num} `{Number num} (items items' : list (BillItem num)) :
  item_price <$> items = item_price <$> items' ->
  totalBillAmount items = totalBillAmount items'.
Proof.
  unfold totalBillAmount. generalize (nzero (num := num)).
  revert items'. induction items as [|i items IH]; intros [|i' items'] z Heq;
    try done.
  cbn in Heq. injection Heq as Hprice Hrest. cbn. rewrite Hprice. by apply IH.
Qed.

(** X11.  When the extraction gives items, at least one, and the
    participants have distinct ids, the summary that follows with no box
    ticked charges every participant the same: the total of the extracted
    prices divided by the number of participants (computed as [0 + sum / N],
    the same number for [===]). *)
Theorem process_bill_then_equal_split
    (processImage : string -> list Event * (Error + option (list (BillItem float))))
    (engineMessage : Error -> string) (dateNow : nat -> string)
    (st : AppState float) uri items p :
  st_billImageUri st = Some uri -> uri <> "" ->
  (processImage uri).2 = inr (Some items) -> items <> [] ->
  NoDup (participant_id <$> st_participants st) -> p ∈ st_participants st ->
  let st' := (handleProcessBill processImage engineMessage dateNow st).1 in
  st_appStep st' = assign_items
  /\ exists amount,
       costBreakdown (st_extractedItems st') (st_participants st')
         (st_itemAssignments st') !! participant_id p = Some amount
       /\ same_number amount
            (totalBillAmount items
             / float_of_nat (length (st_participants st)))%float.
Proof.
  intros Huri Hne Hitems Hsome Hnodup Hp st'. subst st'.
  unfold handleProcessBill. rewrite Huri.
  destruct (String.eqb_spec uri "") as [?|_]; [done|].
  destruct (st_participants st) as [|q ps] eqn:Hps; [by apply elem_of_nil in Hp|].
  cbn [length Nat.eqb]. unfold processSettled. rewrite Hitems. fields.
  split; [done|]. rewrite Hps. eexists. split.
  - apply equal_split_entry; [|apply initialAssignments_noneAssigned|done..].
    intros Hnil. apply (f_equal length) in Hnil.
    rewrite withIds_length in Hnil. by destruct items.
  - rewrite (totalBillAmount_prices _ items) by apply withIds_prices.
    apply float_add_zero_l.
Qed.

Lemma process_bill_then_equal_split_witness :
  let st : AppState float :=
    {| st_appStep := upload_participants; st_billImageUri := Some "bill.jpg";
       st_extractedItems := []; st_participants := [person "a"; person "b"];
       st_newParticipantName := ""; st_itemAssignments := ∅;
       st_isLoading := false |} in
  let processImage := fun _ : string =>
    (@nil Event,
     @inr Error _ (Some [plainItem "1" 10%float; plainItem "2" 4%float])) in
  exists amount,
    costBreakdown
      (st_extractedItems
         (handleProcessBill processImage (fun _ => "") (fun _ => "0") st).1)
      (st_participants
         (handleProcessBill processImage (fun _ => "") (fun _ => "0") st).1)
      (st_itemAssignments
         (handleProcessBill processImage (fun _ => "") (fun _ => "0") st).1)
      !! "b" = Some amount
    /\ same_number amount 7%float.
Proof.
  cbv zeta.
  refine (proj2 (process_bill_then_equal_split
    (fun _ : string =>
       (@nil Event,
        @inr Error _ (Some [plainItem "1" 10%float; plainItem "2" 4%float])))
    (fun _ => "") (fun _ => "0")
    {| st_appStep := upload_participants; st_billImageUri := Some "bill.jpg";
       st_extractedItems := []; st_participants := [person "a"; person "b"];
       st_newParticipantName := ""; st_itemAssignments := ∅;
       st_isLoading := false |}
    "bill.jpg" [plainItem "1" 10%float; plainItem "2" 4%float] (person "b")
    eq_refl _ eq_refl _ _ _)).
  - discriminate.
  - discriminate.
  - decided.
  - decided.
Defined.

(** ** The states the component can reach *)

Lemma toggleAssignment_NoDup itemId participantId (asg : gmap string (list string)) :
  map_Forall (fun _ assigned => NoDup assigned) asg ->
  map_Forall (fun _ assigned => NoDup assigned)
    (toggleAssignment itemId participantId asg).
Proof.
  intros Hall. rewrite toggleAssignment_insert. apply map_Forall_insert_2; [|done].
  assert (NoDup (default [] (asg !! itemId))) as Hnodup.
  { destruct (asg !! itemId) as [l|] eqn:Hl; [by apply (Hall _ _ Hl) | constructor]. }
  case_bool_decide as Hin.
  - by apply NoDup_ListNoDup, List.NoDup_filter, NoDup_ListNoDup.
  - by apply NoDup_snoc.
Qed.

Lemma handleRemoveParticipant_NoDup id participants (asg : gmap string (list string)) :
  map_Forall (fun _ assigned => NoDup assigned) asg ->
  map_Forall (fun _ assigned => NoDup assigned)
    (handleRemoveParticipant id (participants, asg)).2.
Proof.
  intros Hall. unfold handleRemoveParticipant. cbn [snd].
  intros k l. rewrite lookup_fmap. destruct (asg !! k) as [l0|] eqn:Hl; [|done].
  intros [= <-]. apply NoDup_ListNoDup, List.NoDup_filter, NoDup_ListNoDup.
  by apply (Hall _ _ Hl).
Qed.

Lemma handleRemoveParticipant_names id participants (asg : gmap string (list string)) :
  (NoDup (participant_name <$> participants) ->
   NoDup (participant_name <$> (handleRemoveParticipant id (participants, asg)).1))
  /\ (forall name,
        name ∈ participant_name <$> (handleRemoveParticipant id (participants, asg)).1 ->
        name ∈ participant_name <$> participants).
Proof.
  unfold handleRemoveParticipant. cbn [fst]. split.
  - induction participants as [|p ps IH]; [done|]. cbn.
    intros [Hp Hps]%NoDup_cons. destruct (negb _); [|by apply IH].
    cbn. apply NoDup_cons. split; [|by apply IH].
    intros (q & Hq & Hin)%list_elem_of_fmap. apply Hp.
    apply list_elem_of_In, List.filter_In in Hin as [Hin _].
    apply list_elem_of_fmap. exists q. split; [done | by apply list_elem_of_In].
  - intros name (q & Hq & Hin)%list_elem_of_fmap.
    apply list_elem_of_In, List.filter_In in Hin as [Hin _].
    apply list_elem_of_fmap. exists q. split; [done | by apply list_elem_of_In].
Qed.

Lemma onlyParticipants_more participants participants'
    (asg : gmap string (list string)) :
  (forall pId, pId ∈ participant_id <$> participants ->
               pId ∈ participant_id <$> participants') ->
  onlyParticipants participants asg -> onlyParticipants participants' asg.
Proof.
  intros Hsub Honly k l Hl. specialize (Honly k l Hl). cbn in *.
  rewrite Forall_forall in *. intros x Hx. by apply Hsub, Honly.
Qed.

Section MachineFacts.
Context {num : Type}.
Variable trim : string -> string.
Variable engineMessage : Error -> string.

Lemma initialAssignments_dom (items : list (BillItem num)) :
  dom (initialAssignments items) = list_to_set (item_id <$> items).
Proof.
  apply set_eq. intros k.
  rewrite elem_of_dom, initialAssignments_lookup, elem_of_list_to_set.
  case_bool_decide; split; intros Hk;
    first [done | by eexists | by destruct Hk].
Qed.

Lemma perform_consistent (a : Action num) (st st' : AppState num) :
  consistent st -> perform trim engineMessage a st = Some st' -> consistent st'.
Proof.
  intros (Honly & Hnodup & Hdom & Hnames & Hempty & Hbusy & Hsum).
  destruct a as [uri|text|now|id| |dateNow settled|itemId pId| | |];
    unfold perform.
  - intros [= <-]. done.
  - case_bool_decide; [|done]. intros [= <-]. done.
  - case_bool_decide as Hstep; [|done]. intros [= <-].
    unfold consistent. fields.
    destruct (handleAddParticipant_cases trim now (st_participants st)
                (st_newParticipantName st)) as [->|[[-> _]|(-> & Hne & Hnew)]];
      cbn [fst snd]; [done..|].
    split; [|split; [done|split; [done|split; [|split; [|split]]]]].
    + apply (onlyParticipants_more (st_participants st)); [|done].
      intros x Hx. rewrite fmap_app. apply elem_of_app. by left.
    + rewrite fmap_app. by apply NoDup_snoc.
    + rewrite fmap_app. intros [?|Hin]%elem_of_app; [done|].
      apply list_elem_of_singleton in Hin. done.
    + done.
    + intros Hs. congruence.
  - destruct (bool_decide (st_appStep st = _)) eqn:Hstep; [|done].
    apply bool_decide_eq_true in Hstep.
    case_bool_decide as Hid; [|done]. cbn [andb]. intros [= <-].
    unfold consistent. fields.
    destruct (handleRemoveParticipant_onlyParticipants id _ _ Honly) as [Honly' _].
    destruct (handleRemoveParticipant_names id (st_participants st)
                (st_itemAssignments st)) as [Hn1 Hn2].
    split; [done|].
    split; [by apply (handleRemoveParticipant_NoDup id (st_participants st))|].
    split; [|split; [by apply Hn1|split; [|split]]].
    + by rewrite dom_fmap_L.
    + intros Hin. by apply Hempty, Hn2.
    + done.
    + intros Hs. congruence.
  - destruct (bool_decide (st_appStep st = _)) eqn:Hstep; [|done].
    apply bool_decide_eq_true in Hstep.
    destruct (negb _); [|done]. cbn [andb]. intros [= <-].
    unfold consistent. fields. repeat split; try done. all: congruence.
  - destruct (st_isLoading st) eqn:Hload; [|done]. intros [= <-].
    specialize (Hbusy eq_refl).
    unfold processSettled, processFailed.
    destruct settled as [events [e|[items|]]]; fields.
    + unfold consistent. fields. repeat split; try done. all: congruence.
    + unfold consistent. fields.
      split; [apply initialAssignments_onlyParticipants|].
      split. { intros k l. rewrite initialAssignments_lookup.
               case_bool_decide; [|done]. intros [= <-]. constructor. }
      split; [apply initialAssignments_dom|].
      repeat split; try done.
    + unfold consistent. fields. repeat split; try done. all: congruence.
  - destruct (bool_decide (st_appStep st = _)) eqn:Hstep; [|done].
    apply bool_decide_eq_true in Hstep.
    case_bool_decide as Hitem; [|done]. case_bool_decide as Hp; [|done].
    cbn [andb]. intros [= <-]. unfold consistent. fields.
    split. { unfold toggleAssignment.
             by apply handleItemAssignmentChange_onlyParticipants. }
    split; [by apply toggleAssignment_NoDup|].
    split. { rewrite toggleAssignment_insert, dom_insert_L, Hdom.
             apply set_eq. intros k. rewrite elem_of_union, elem_of_singleton,
               elem_of_list_to_set. split; [intros [->|?]; done | by right]. }
    repeat split; try done. all: congruence.
  - case_bool_decide as Hstep; [|done]. intros [= <-].
    unfold consistent. fields. repeat split; try done. all: congruence.
  - destruct (bool_decide (st_appStep st = _)) eqn:Hstep; [|done].
    apply bool_decide_eq_true in Hstep.
    destruct (st_extractedItems st) as [|i items] eqn:Hitems; [done|].
    destruct (st_participants st) as [|p ps] eqn:Hps; [done|].
    cbn. intros [= <-]. unfold consistent. fields. rewrite Hitems, Hps.
    repeat split; try done. intros Hl. specialize (Hbusy Hl). congruence.
  - case_bool_decide as Hstep; [|done]. intros [= <-].
    unfold consistent. fields. repeat split; try done.
    + apply NoDup_nil_2.
    + apply not_elem_of_nil.
Qed.

Lemma reachable_consistent (st : AppState num) :
  reachable trim engineMessage st -> consistent st.
Proof.
  induction 1 as [|st a st' _ IH Hstep].
  - unfold consistent, initialState. fields. repeat split; try done.
    + apply NoDup_nil_2.
    + apply not_elem_of_nil.
  - by apply (perform_consistent a st).
Qed.

Lemma performAll_reachable actions (st st' : AppState num) :
  reachable trim engineMessage st ->
  performAll trim engineMessage actions st = Some st' ->
  reachable trim engineMessage st'.
Proof.
  revert st. induction actions as [|a actions IH]; intros st Hst.
  - by intros [= <-].
  - cbn. destruct (perform trim engineMessage a st) as [st1|] eqn:Ha; [|done].
    apply IH. by apply (reachable_step trim engineMessage st a).
Qed.

(** X12.  In every state the component reaches, whatever the extraction
    answers and whenever it does, and whatever the clock and [trim] give:
    the lists name participants only, and each of them once; the mapping
    has a list for each item and for nothing else; so the breakdown has an
    entry for each participant and for nobody else; the names are distinct
    and not empty; the component is busy at the first step only; and the
    summary is shown only of a bill with an item and a participant. *)
Theorem reachable_states_consistent `{Number num} (st : AppState num) :
  reachable trim engineMessage st ->
  onlyParticipants (st_participants st) (st_itemAssignments st)
  /\ (forall itemId assigned,
        st_itemAssignments st !! itemId = Some assigned -> NoDup assigned)
  /\ (forall itemId,
        is_Some (st_itemAssignments st !! itemId)
        <-> itemId ∈ item_id <$> st_extractedItems st)
  /\ dom (costBreakdown (st_extractedItems st) (st_participants st)
            (st_itemAssignments st))
     = list_to_set (participant_id <$> st_participants st)
  /\ NoDup (participant_name <$> st_participants st)
  /\ ("" ∉ participant_name <$> st_participants st)
  /\ (st_isLoading st = true -> st_appStep st = upload_participants)
  /\ (st_appStep st = summary ->
      st_extractedItems st <> [] /\ st_participants st <> []).
Proof.
  intros (Honly & Hnodup & Hdom & Hnames & Hempty & Hbusy & Hsum)%reachable_consistent.
  split; [done|]. split; [done|]. split; [|split; [|done]].
  - intros itemId. by rewrite <- elem_of_dom, Hdom, elem_of_list_to_set.
  - apply set_eq. intros u.
    rewrite elem_of_dom, elem_of_list_to_set. split.
    + by apply costBreakdown_keys_onlyParticipants.
    + intros Hu. apply costBreakdown_is_Some. by left.
Qed.

End MachineFacts.

Lemma reachable_states_consistent_witness :
  exists st : AppState float,
    performAll (fun s => s) (fun _ => "")
      [ImagePicked "bill.jpg"; TextChanged "Ann"; AddPressed "1";
       TextChanged "Bob"; AddPressed "2"; ProcessPressed;
       ExtractionSettled (fun _ => "0")
         ([], inr (Some [plainItem "1" 10%float; plainItem "2" 4%float]));
       BoxPressed "1" "2"; ShowSummaryPressed] initialState = Some st
    /\ st_appStep st = summary
    /\ dom (costBreakdown (st_extractedItems st) (st_participants st)
              (st_itemAssignments st))
       = list_to_set (participant_id <$> st_participants st).
Proof.
  eexists. split; [vm_compute; reflexivity|]. split; [reflexivity|].
  refine (proj1 (proj2 (proj2 (proj2
    (reachable_states_consistent (fun s => s) (fun _ => "") _ _))))).
  apply (performAll_reachable (fun s => s) (fun _ => "")
    [ImagePicked "bill.jpg"; TextChanged "Ann"; AddPressed "1";
     TextChanged "Bob"; AddPressed "2"; ProcessPressed;
     ExtractionSettled (fun _ => "0")
       ([], inr (Some [plainItem "1" 10%float; plainItem "2" 4%float]));
     BoxPressed "1" "2"; ShowSummaryPressed] initialState).
  - apply reachable_initial.
  - vm_compute. reflexivity.
Defined.

(** X13.  At the summary step of a state the component has reached, the
    numbers [costBreakdown[p.id] || 0] of the participants add up, in exact
    arithmetic and before the screen rounds them to two decimals, to
    [totalBillAmount], when the clock gave the participants distinct ids. *)
Theorem summary_unrounded_amounts_add_up (trim : string -> string)
    (engineMessage : Error -> string) (st : AppState Qc) :
  reachable trim engineMessage st ->
  st_appStep st = summary ->
  NoDup (participant_id <$> st_participants st) ->
  sumList (unroundedAmounts (st_extractedItems st) (st_participants st)
             (st_itemAssignments st))
  = totalBillAmount (st_extractedItems st).
Proof.
  intros (Honly & _ & _ & _ & _ & _ & Hsum)%reachable_consistent Hstep Hnodup.
  destruct (Hsum Hstep) as [_ Hps].
  rewrite unroundedAmounts_values by done. apply costBreakdown_sum. by right.
Qed.

Lemma summary_unrounded_amounts_add_up_witness :
  exists st : AppState Qc,
    performAll (fun s => s) (fun _ => "")
      [ImagePicked "bill.jpg"; TextChanged "Ann"; AddPressed "1";
       TextChanged "Bob"; AddPressed "2"; TextChanged "Cid"; AddPressed "3";
       ProcessPressed; RemovePressed "3";
       ExtractionSettled (fun _ => "0")
         ([], inr (Some [plainItem "1" (Q2Qc 10); plainItem "2" (Q2Qc (7 # 2))]));
       BoxPressed "1" "2"; BoxPressed "1" "1"; BoxPressed "1" "2";
       ShowSummaryPressed] initialState = Some st
    /\ sumList (unroundedAmounts (st_extractedItems st) (st_participants st)
                  (st_itemAssignments st))
       = totalBillAmount (st_extractedItems st).
Proof.
  eexists. split; [vm_compute; reflexivity|].
  apply (summary_unrounded_amounts_add_up (fun s => s) (fun _ => "")).
  - apply (performAll_reachable (fun s => s) (fun _ => "")
      [ImagePicked "bill.jpg"; TextChanged "Ann"; AddPressed "1";
       TextChanged "Bob"; AddPressed "2"; TextChanged "Cid"; AddPressed "3";
       ProcessPressed; RemovePressed "3";
       ExtractionSettled (fun _ => "0")
         ([], inr (Some [plainItem "1" (Q2Qc 10); plainItem "2" (Q2Qc (7 # 2))]));
       BoxPressed "1" "2"; BoxPressed "1" "1"; BoxPressed "1" "2";
       ShowSummaryPressed] initialState).
    + apply reachable_initial.
    + vm_compute. reflexivity.
  - reflexivity.
  - decided.
Defined.

(** ** The type of the image *)





(** ** The stages of [processBillImage] *)

Lemma parseModelText_throws parse open close text e :
  parseModelText parse open close text = Throw e ->
  e = SyntaxError \/ e = FailedToParseAsJson.
Proof.
  unfold parseModelText. destruct (parse text); [done|].
  destruct (regexMatch open close text) as [m|]; [|intros [= <-]; by right].
  destruct (parse m); [done|]. intros [= <-]. by left.
Qed.

Lemma parseModelText_modelled parse open close text :
  parseModelText parse open close text <> Unmodelled.
Proof.
  unfold parseModelText. destruct (parse text); [done|].
  destruct (regexMatch open close text) as [m|]; [|done]. by destruct (parse m).
Qed.

Lemma mapWithIndex_inv {A B} (f : nat -> A -> Outcome B) (index : nat)
    (l : list A) (bs : list B) :
  mapWithIndex f index l = Return bs ->
  length bs = length l
  /\ forall j b, bs !! j = Some b ->
       exists a, l !! j = Some a /\ f (index + j)%nat a = Return b.
Proof.
  revert index bs. induction l as [|a l IH]; intros index bs.
  - intros [= <-]. split; [done|]. intros j b Hj. by rewrite lookup_nil in Hj.
  - cbn [mapWithIndex]. destruct (f index a) as [b| |] eqn:Hb; [|done..]. cbn.
    destruct (mapWithIndex f (S index) l) as [bs'| |] eqn:Hbs; [|done..]. cbn.
    intros [= <-]. destruct (IH _ _ Hbs) as [Hlen Hall]. split; [cbn; lia|].
    intros [|j] c Hj.
    + injection Hj as <-. exists a. rewrite Nat.add_0_r. done.
    + destruct (Hall j c Hj) as (a' & Ha' & Hf). exists a'. split; [done|].
      by replace (index + S j)%nat with (S index + j)%nat by lia.
Qed.

Lemma mapWithIndex_throws {A B} (f : nat -> A -> Outcome B) (index : nat)
    (l : list A) (e : Error) :
  mapWithIndex f index l = Throw e ->
  exists j a, l !! j = Some a /\ f (index + j)%nat a = Throw e.
Proof.
  revert index. induction l as [|a l IH]; intros index; [done|].
  cbn [mapWithIndex]. destruct (f index a) as [b| |] eqn:Hb; cbn.
  - destruct (mapWithIndex f (S index) l) as [bs'| |] eqn:Hbs; [done| |done]. cbn.
    intros [= <-]. destruct (IH _ Hbs) as (j & a' & Ha' & Hf).
    exists (S j), a'. split; [done|].
    by replace (index + S j)%nat with (S index + j)%nat by lia.
  - intros [= <-]. exists 0%nat, a. by rewrite Nat.add_0_r.
  - done.
Qed.

Lemma mapWithIndex_unmodelled {A B} (f : nat -> A -> Outcome B) (index : nat)
    (l : list A) :
  (forall j a, f j a <> Unmodelled) -> mapWithIndex f index l <> Unmodelled.
Proof.
  intros Hf. revert index. induction l as [|a l IH]; intros index; [done|].
  cbn [mapWithIndex]. specialize (Hf index a).
  destruct (f index a) as [b| |]; [|done..]. cbn.
  specialize (IH (S index)). by destruct (mapWithIndex f (S index) l).
Qed.

Lemma getProp_throws v name e : getProp v name = Throw e -> e = TypeError.
Proof. destruct v; cbn; congruence. Qed.

Lemma getProp_modelled v name : getProp v name <> Unmodelled.
Proof. by destruct v. Qed.

Lemma schemaB_normalize_throws v e : SchemaB.normalize v = Throw e -> e = TypeError.
Proof.
  unfold SchemaB.normalize. destruct v; try congruence.
  intros (j & a & _ & Hf)%mapWithIndex_throws.
  destruct (getProp a "description") eqn:H1; cbn in Hf;
    [|by injection Hf as <-; apply getProp_throws in H1|done].
  destruct (getProp a "price") eqn:H2; cbn in Hf;
    [|by injection Hf as <-; apply getProp_throws in H2|done].
  destruct (getProp a "isTax") eqn:H3; cbn in Hf;
    [done|by injection Hf as <-; apply getProp_throws in H3|done].
Qed.

Lemma schemaB_normalize_modelled v : SchemaB.normalize v <> Unmodelled.
Proof.
  unfold SchemaB.normalize. destruct v; try done.
  apply mapWithIndex_unmodelled. intros j a.
  destruct a; cbn; try done.
Qed.

Lemma schemaA_normalize_throws v e : SchemaA.normalize v = Throw e -> e = TypeError.
Proof.
  unfold SchemaA.normalize.
  destruct (getProp v "items") as [items| |] eqn:H1; cbn;
    [|by intros [= <-]; apply getProp_throws in H1|done].
  destruct (getProp v "cgst") as [cgst| |] eqn:H2; cbn;
    [|by intros [= <-]; apply getProp_throws in H2|done].
  destruct (getProp v "sgst") as [sgst| |] eqn:H3; cbn;
    [|by intros [= <-]; apply getProp_throws in H3|done].
  destruct (js_or items (JArr [])) as [| | | | |elements|]; try congruence.
  assert (forall tax,
    mapWithIndex (fun index item =>
        description ← getProp item "description";
        price ← getProp item "price";
        price ← SchemaA.adjustedPrice price tax;
        Return {| id := toString (index + 1); description := description;
                  price := JNum price; isShared := None |}) 0 elements = Throw e ->
    e = TypeError) as Hmap.
  { intros tax (j & a & _ & Hf)%mapWithIndex_throws.
    destruct (getProp a "description") eqn:H4; cbn in Hf;
      [|by injection Hf as <-; apply getProp_throws in H4|done].
    destruct (getProp a "price") as [p| |] eqn:H5; cbn in Hf;
      [|by injection Hf as <-; apply getProp_throws in H5|done].
    unfold SchemaA.adjustedPrice in Hf. destruct (toNumber p); cbn in Hf; congruence. }
  destruct (length elements) as [|n]; [apply Hmap|].
  unfold SchemaA.taxPerItem.
  destruct (toNumber (js_or cgst (JNum 0))), (toNumber (js_or sgst (JNum 0)));
    cbn; try done. apply Hmap.
Qed.

(** X15.  A run of [processBillImage], of either revision, ends in one of
    these ways.  Without a key: nothing is done but the log.  With a key the
    file is read, once; when that fails, the two logs follow and the model
    is not asked.  Otherwise the model is asked, once, with the data read
    and the type of the URI; and then either the function returns the items,
    after these two events and no log, or the model's failure, the parser's
    or a [TypeError] of the normalisation is logged once.  Every error that
    leaves the function is wrapped. *)
Theorem processBillImage_stages (env : Env) (imageUri : string) :
  stagedRun PromptItemsAndTaxes env imageUri (SchemaA.processBillImage env imageUri)
  /\ stagedRun PromptItemsWithTaxFlag env imageUri
       (SchemaB.processBillImage env imageUri).
Proof.
  unfold stagedRun. cbv zeta.
  destruct (apiKeyMissing env) eqn:Hkey.
  { split; left; split; try done;
      [unfold SchemaA.processBillImage | unfold SchemaB.processBillImage];
      by rewrite Hkey. }
  destruct (readAsStringAsync env imageUri) as [data|] eqn:Hread.
  2:{ split; right; left; (split; [done|]); (split; [done|]);
        [unfold SchemaA.processBillImage | unfold SchemaB.processBillImage];
        unfold getBase64FromUri; by rewrite Hkey, Hread. }
  split; right; right; exists data; (split; [done|]); (split; [done|]).
  - destruct (generateContent env PromptItemsAndTaxes data
                (getMimeTypeFromUri imageUri)) as [text|] eqn:Hmodel.
    + right. exists text. split; [done|].
      rewrite (schemaA_run env imageUri data text) by done. cbv zeta.
      destruct (parseModelText (JSON_parse env) "{" "}" text) as [parsed|e|] eqn:Hp;
        cbn.
      * destruct (SchemaA.normalize parsed) as [items|e|] eqn:Hn; cbn.
        -- right. left. by exists items.
        -- left. exists e. split; [|done].
           apply schemaA_normalize_throws in Hn as ->. repeat constructor.
        -- by right; right.
      * left. exists e. split; [|done].
        apply parseModelText_throws in Hp as [-> | ->]; repeat constructor.
      * by apply parseModelText_modelled in Hp.
    + left. split; [done|].
      unfold SchemaA.processBillImage, getBase64FromUri, askModel.
      rewrite Hkey, Hread. cbn. by rewrite Hmodel.
  - destruct (generateContent env PromptItemsWithTaxFlag data
                (getMimeTypeFromUri imageUri)) as [text|] eqn:Hmodel.
    + right. exists text. split; [done|].
      rewrite (schemaB_run env imageUri data text) by done. cbv zeta.
      destruct (parseModelText (JSON_parse env) "[" "]" text) as [parsed|e|] eqn:Hp;
        cbn.
      * destruct (SchemaB.normalize parsed) as [items|e|] eqn:Hn; cbn.
        -- right. left. by exists items.
        -- left. exists e. split; [|done].
           apply schemaB_normalize_throws in Hn as ->. repeat constructor.
        -- by apply schemaB_normalize_modelled in Hn.
      * left. exists e. split; [|done].
        apply parseModelText_throws in Hp as [-> | ->]; repeat constructor.
      * by apply parseModelText_modelled in Hp.
    + left. split; [done|].
      unfold SchemaB.processBillImage, getBase64FromUri, askModel.
      rewrite Hkey, Hread. cbn. by rewrite Hmodel.
Qed.

(** ** The ids of the extracted items *)

Lemma to_uint_nonnil (n : nat) : Nat.to_uint n <> Decimal.Nil.
Proof.
  pose proof (Unsigned.to_of (Nat.to_uint n)) as Hnorm.
  rewrite Unsigned.of_to in Hnorm. rewrite Hnorm. apply unorm_nonnil.
Qed.

Lemma toString_inj (n m : nat) : toString n = toString m -> n = m.
Proof.
  unfold toString. intros Heq.
  apply (f_equal NilZero.uint_of_string) in Heq.
  rewrite !NilZero.usu in Heq by apply to_uint_nonnil.
  injection Heq as Heq. by apply Unsigned.to_uint_inj.
Qed.

Lemma toString_nonempty (n : nat) : toString n <> "".
Proof.
  unfold toString. intros Heq.
  apply (f_equal NilZero.uint_of_string) in Heq.
  rewrite NilZero.usu in Heq by apply to_uint_nonnil. done.
Qed.

Lemma mapWithIndex_ids {A} (f : nat -> A -> Outcome ExtractedItem) (l : list A)
    (items : list ExtractedItem) :
  (forall j a item, f j a = Return item -> id item = toString (j + 1)) ->
  mapWithIndex f 0 l = Return items ->
  id <$> items = (fun k => toString (k + 1)) <$> seq 0 (length items).
Proof.
  intros Hf [Hlen Hall]%mapWithIndex_inv.
  apply list_eq. intros j. rewrite !list_lookup_fmap.
  destruct (items !! j) as [item|] eqn:Hj; cbn.
  - destruct (Hall j item Hj) as (a & _ & Ha). apply Hf in Ha.
    rewrite lookup_seq_lt by (by apply lookup_lt_Some in Hj). cbn. by rewrite Ha.
  - apply lookup_ge_None in Hj. by rewrite lookup_seq_ge.
Qed.

Lemma numbered_ids (ids : list string) :
  ids = (fun k => toString (k + 1)) <$> seq 0 (length ids) ->
  NoDup ids /\ "" ∉ ids.
Proof.
  intros ->. split.
  - apply NoDup_fmap_2; [|apply NoDup_seq].
    intros j k Heq%toString_inj. lia.
  - intros (k & Hk & _)%list_elem_of_fmap. symmetry in Hk.
    by apply toString_nonempty in Hk.
Qed.

Lemma schemaA_normalize_ids v items :
  SchemaA.normalize v = Return items ->
  id <$> items = (fun k => toString (k + 1)) <$> seq 0 (length items).
Proof.
  unfold SchemaA.normalize.
  destruct (getProp v "items") as [its| |]; [|done..]. cbn.
  destruct (getProp v "cgst") as [cgst| |]; [|done..]. cbn.
  destruct (getProp v "sgst") as [sgst| |]; [|done..]. cbn.
  destruct (js_or its (JArr [])) as [| | | | |elements|]; try done.
  destruct (if (0 <? length elements)%nat then _ else _) as [tax| |]; [|done..].
  cbn. apply mapWithIndex_ids. intros j a item.
  destruct (getProp a "description"); [|done..]. cbn.
  destruct (getProp a "price") as [p| |]; [|done..]. cbn.
  destruct (SchemaA.adjustedPrice p tax); [|done..]. cbn. by intros [= <-].
Qed.

Lemma schemaB_normalize_ids v items :
  SchemaB.normalize v = Return items ->
  id <$> items = (fun k => toString (k + 1)) <$> seq 0 (length items).
Proof.
  unfold SchemaB.normalize. destruct v as [| | | | |elements|]; try done.
  apply mapWithIndex_ids. intros j a item.
  destruct (getProp a "description"); [|done..]. cbn.
  destruct (getProp a "price") as [p| |]; [|done..]. cbn.
  destruct (getProp a "isTax") as [t| |]; [|done..]. cbn. by intros [= <-].
Qed.

Lemma schemaA_returns env imageUri items :
  (SchemaA.processBillImage env imageUri).2 = Return items ->
  exists parsedResponse, SchemaA.normalize parsedResponse = Return items.
Proof.
  unfold SchemaA.processBillImage, getBase64FromUri, askModel.
  destruct (apiKeyMissing env); [done|].
  destruct (readAsStringAsync env imageUri) as [data|]; [|done]. cbn.
  destruct (generateContent env _ _ _) as [text|]; [|done]. cbn.
  destruct (parseModelText _ _ _ _) as [parsed| |]; [|done..]. cbn.
  destruct (SchemaA.normalize parsed) as [its| |] eqn:Hn; [|done..].
  cbn. intros [= <-]. by exists parsed.
Qed.

Lemma schemaB_returns env imageUri items :
  (SchemaB.processBillImage env imageUri).2 = Return items ->
  exists parsedItems, SchemaB.normalize parsedItems = Return items.
Proof.
  unfold SchemaB.processBillImage, getBase64FromUri, askModel.
  destruct (apiKeyMissing env); [done|].
  destruct (readAsStringAsync env imageUri) as [data|]; [|done]. cbn.
  destruct (generateContent env _ _ _) as [text|]; [|done]. cbn.
  destruct (parseModelText _ _ _ _) as [parsed| |]; [|done..]. cbn.
  destruct (SchemaB.normalize parsed) as [its| |] eqn:Hn; [|done..].
  cbn. intros [= <-]. by exists parsed.
Qed.

(** X16.  The items that [processBillImage] returns, in either revision,
    carry the ids [1], [2], ... in the decimal notation, in order: they are
    distinct and none is empty ([toString] is injective). *)
Theorem extracted_ids_distinct (env : Env) (imageUri : string)
    (items : list ExtractedItem) :
  (SchemaA.processBillImage env imageUri).2 = Return items
  \/ (SchemaB.processBillImage env imageUri).2 = Return items ->
  id <$> items = (fun k => toString (k + 1)) <$> seq 0 (length items)
  /\ NoDup (id <$> items)
  /\ ("" ∉ id <$> items)
  /\ (forall j k, toString j = toString k -> j = k).
Proof.
  intros Hrun.
  assert (id <$> items = (fun k => toString (k + 1)) <$> seq 0 (length items))
    as Hids.
  { destruct Hrun as [(v & Hv)%schemaA_returns|(v & Hv)%schemaB_returns].
    - by apply (schemaA_normalize_ids v).
    - by apply (schemaB_normalize_ids v). }
  split; [done|].
  destruct (numbered_ids (id <$> items)) as [Hnodup Hno].
  { by rewrite length_fmap. }
  split; [done|]. split; [done|]. apply toString_inj.
Qed.

Lemma extracted_ids_distinct_witness :
  let env := constantEnv (Some "key") (Some "AAAA")
               (Some "[{ }, {  }, 3]") in
  exists items,
    (SchemaB.processBillImage env "bill.png").2 = Return items
    /\ NoDup (id <$> items).
Proof.
  cbv zeta. eexists. split; [vm_compute; reflexivity|].
  refine (proj1 (proj2 (extracted_ids_distinct
    (constantEnv (Some "key") (Some "AAAA") (Some "[{ }, {  }, 3]"))
    "bill.png" _ (or_intror _)))).
  vm_compute. reflexivity.
Defined.

(** ** What the normalisations accept *)

Lemma getProp_Return_notNull v name w : getProp v name = Return w -> notNull v.
Proof. destruct v; cbn; try done; intros _; split; discriminate. Qed.

(** X17.  The normalisation of the Schema B revision returns exactly for
    the arrays that hold neither [null] nor [undefined], one item for each
    element (a number or a string among the elements gives an item too);
    for every other value it throws a [TypeError]. *)
Theorem schemaB_returns_iff_no_null (parsedItems : JSValue) :
  ((exists items, SchemaB.normalize parsedItems = Return items)
   <-> exists elements, parsedItems = JArr elements /\ Forall notNull elements)
  /\ ((forall items, SchemaB.normalize parsedItems <> Return items) ->
      SchemaB.normalize parsedItems = Throw TypeError)
  /\ (forall items, SchemaB.normalize parsedItems = Return items ->
        exists elements,
          parsedItems = JArr elements /\ length items = length elements).
Proof.
  assert (forall items, SchemaB.normalize parsedItems = Return items ->
            exists elements, parsedItems = JArr elements
              /\ length items = length elements /\ Forall notNull elements) as Hinv.
  { intros items. unfold SchemaB.normalize.
    destruct parsedItems as [| | | | |elements|]; try done.
    intros [Hlen Hall]%mapWithIndex_inv. exists elements.
    split; [done|]. split; [done|]. apply Forall_lookup_2. intros j a Ha.
    destruct (lookup_lt_is_Some_2 items j) as [item Hitem].
    { rewrite Hlen. by apply lookup_lt_Some in Ha. }
    destruct (Hall j item Hitem) as (a' & Ha' & Hf).
    assert (a' = a) as -> by congruence.
    destruct (getProp a "description") eqn:Hd; [|done..].
    by apply getProp_Return_notNull in Hd. }
  split; [split|split].
  - intros [items (elements & -> & _ & Hall)%Hinv]. by exists elements.
  - intros (elements & -> & Hall). eexists. unfold SchemaB.normalize.
    apply (mapWithIndex_Return _ (fun index element =>
      {| id := toString (index + 1);
         description := propertyOf element "description";
         price := propertyOf element "price";
         isShared := Some (strictly_true (propertyOf element "isTax")) |})).
    intros j a Hj. cbn [Nat.add].
    assert (notNull a) as Ha by (eapply Forall_lookup_1; eauto).
    by rewrite !getProp_notNull.
  - intros Hno. destruct (SchemaB.normalize parsedItems) as [items|e|] eqn:Hn.
    + by destruct (Hno items).
    + by apply schemaB_normalize_throws in Hn as ->.
    + by apply schemaB_normalize_modelled in Hn.
  - intros items (elements & -> & Hlen & _)%Hinv. by exists elements.
Qed.

Lemma float_nan_add (x : float) : (nan + x)%float = nan.
Proof.
  apply Prim2SF_inj. rewrite FloatAxioms.add_spec.
  change (Prim2SF nan) with S754_nan. done.
Qed.

(** X18.  The normalisation of the Schema A revision: [null] throws a
    [TypeError]; a response whose [items] is missing, falsy or the empty
    array gives no item, whatever [cgst] and [sgst] hold, so that the taxes
    of a bill without items are dropped; a truthy [items] that is no array
    throws a [TypeError]; when it returns, it returns one item for each
    element, every price is a number and no item has [isShared]; and an
    element without [price] gets the price [NaN]. *)
Theorem schemaA_defaults (parsedResponse : JSValue) :
  (~ notNull parsedResponse -> SchemaA.normalize parsedResponse = Throw TypeError)
  /\ (notNull parsedResponse ->
      truthy (propertyOf parsedResponse "items") = false
      \/ propertyOf parsedResponse "items" = JArr [] ->
      SchemaA.normalize parsedResponse = Return [])
  /\ (notNull parsedResponse ->
      truthy (propertyOf parsedResponse "items") = true ->
      (forall elements, propertyOf parsedResponse "items" <> JArr elements) ->
      SchemaA.normalize parsedResponse = Throw TypeError)
  /\ (forall items, SchemaA.normalize parsedResponse = Return items ->
        (exists elements,
           propertyOf parsedResponse "items" = JArr elements
           /\ length items = length elements)
        \/ (truthy (propertyOf parsedResponse "items") = false /\ items = []))
  /\ (forall items item, SchemaA.normalize parsedResponse = Return items ->
        item ∈ items ->
        (exists x, price item = JNum x) /\ isShared item = None)
  /\ (forall items j item element elements,
        SchemaA.normalize parsedResponse = Return items ->
        propertyOf parsedResponse "items" = JArr elements ->
        items !! j = Some item -> elements !! j = Some element ->
        propertyOf element "price" = JUndefined ->
        price item = JNum nan).
Proof.
  split; [|split; [|split; [|split; [|split]]]].
  - intros Hnot. destruct parsedResponse; try done;
      destruct Hnot; split; discriminate.
  - intros Hv Hitems. unfold SchemaA.normalize. rewrite !getProp_notNull by done.
    cbn. unfold js_or at 1. destruct Hitems as [-> | ->]; done.
  - intros Hv Htruthy Hnot. unfold SchemaA.normalize.
    rewrite !getProp_notNull by done. cbn. unfold js_or at 1. rewrite Htruthy.
    destruct (propertyOf parsedResponse "items") as [| | | | |elements|] eqn:Hi;
      try done. by destruct (Hnot elements).
  - intros items. unfold SchemaA.normalize.
    destruct (getProp parsedResponse "items") as [its| |] eqn:Hits; [|done..].
    pose proof (getProp_Return_notNull _ _ _ Hits) as Hv.
    rewrite getProp_notNull in Hits by done. injection Hits as <-.
    rewrite !getProp_notNull by done. cbn. unfold js_or at 1.
    destruct (truthy (propertyOf parsedResponse "items")) eqn:Htruthy.
    + destruct (propertyOf parsedResponse "items") as [| | | | |elements|];
        try done.
      destruct (if (0 <? length elements)%nat then _ else _) as [tax| |];
        [|done..].
      cbn. intros [Hlen _]%mapWithIndex_inv. left. by exists elements.
    + cbn. intros [= <-]. by right.
  - intros items item. unfold SchemaA.normalize.
    destruct (getProp parsedResponse "items") as [its| |]; [|done..]. cbn.
    destruct (getProp parsedResponse "cgst") as [cgst| |]; [|done..]. cbn.
    destruct (getProp parsedResponse "sgst") as [sgst| |]; [|done..]. cbn.
    destruct (js_or its (JArr [])) as [| | | | |elements|]; try done.
    destruct (if (0 <? length elements)%nat then _ else _) as [tax| |]; [|done..].
    cbn. intros [_ Hall]%mapWithIndex_inv (j & Hj)%list_elem_of_lookup_1.
    destruct (Hall j item Hj) as (a & _ & Hf).
    destruct (getProp a "description"); [|done..]. cbn in Hf.
    destruct (getProp a "price") as [p| |]; [|done..]. cbn in Hf.
    destruct (SchemaA.adjustedPrice p tax) as [x| |]; [|done..]. cbn in Hf.
    injection Hf as <-. split; [by exists x | done].
  - intros items j item element elements Hrun Hitems Hitem Helement Hprice.
    unfold SchemaA.normalize in Hrun.
    destruct (getProp parsedResponse "items") as [its| |] eqn:Hits; [|done..].
    pose proof (getProp_Return_notNull _ _ _ Hits) as Hv.
    rewrite getProp_notNull in Hits by done. injection Hits as <-.
    rewrite !getProp_notNull in Hrun by done. cbn in Hrun.
    rewrite Hitems in Hrun. unfold js_or at 1 in Hrun. cbn [truthy] in Hrun.
    destruct (if (0 <? length elements)%nat then _ else _) as [tax| |];
      [|done..].
    cbn in Hrun. apply mapWithIndex_inv in Hrun as [_ Hall].
    destruct (Hall j item Hitem) as (a & Ha & Hf).
    assert (a = element) as -> by congruence.
    destruct (getProp element "description") eqn:Hd; [|done..]. cbn in Hf.
    apply getProp_Return_notNull in Hd.
    rewrite getProp_notNull, Hprice in Hf by done. cbn in Hf.
    injection Hf as <-. cbn. by rewrite float_nan_add.
Qed.

(** ** Bounds of the breakdown, in exact arithmetic *)

Lemma Qc_of_nat_nonneg n : (0 <= Qc_of_nat n)%Qc.
Proof.
  unfold Qc_of_nat, Qcle. cbn [this Q2Qc].
  rewrite (Qred_correct (inject_Z (Z.of_nat n))).
  change (0 <= inject_Z (Z.of_nat n))%Q. unfold Qle. cbn. lia.
Qed.

Lemma Qcdiv_nonneg (x y : Qc) : (0 <= x)%Qc -> (0 <= y)%Qc -> (0 <= x / y)%Qc.
Proof.
  intros Hx Hy. unfold Qcdiv.
  assert (0 <= / y)%Qc as Hinv.
  { unfold Qcle in *. cbn [this Qcinv Q2Qc]. rewrite (Qred_correct (/ this y)).
    apply Qinv_le_0_compat. exact Hy. }
  replace 0%Qc with (0 * / y)%Qc by ring. by apply Qcmult_le_compat_r.
Qed.

Lemma Qcplus_nonneg (x y : Qc) : (0 <= x)%Qc -> (0 <= y)%Qc -> (0 <= x + y)%Qc.
Proof.
  intros Hx Hy. replace 0%Qc with (0 + 0)%Qc by ring. by apply Qcplus_le_compat.
Qed.

Lemma totalBillAmount_nonneg (items : list (BillItem Qc)) :
  Forall (fun it => (0 <= item_price it)%Qc) items ->
  (0 <= totalBillAmount items)%Qc.
Proof.
  induction 1 as [|i items Hi _ IH]; [done|].
  rewrite totalBillAmount_cons. by apply Qcplus_nonneg.
Qed.

Lemma accumulate_nonneg (entry : option Qc) (amounts : list Qc) x :
  (forall y, entry = Some y -> (0 <= y)%Qc) ->
  Forall (fun a => (0 <= a)%Qc) amounts ->
  accumulate entry amounts = Some x -> (0 <= x)%Qc.
Proof.
  intros Hentry Hall. revert entry Hentry.
  induction Hall as [|a amounts Ha _ IH]; intros entry Hentry.
  - cbn. intros Hx. by apply Hentry.
  - cbn. apply IH. intros y [= <-]. rewrite Qc_orZero.
    apply Qcplus_nonneg; [|done]. destruct entry as [z|]; [by apply Hentry|done].
Qed.

Lemma sumValues_nonneg (costs : gmap string Qc) :
  (forall k x, costs !! k = Some x -> (0 <= x)%Qc) -> (0 <= sumValues costs)%Qc.
Proof.
  induction costs as [|k x costs Hk IH] using map_ind; intros Hall; [done|].
  rewrite sumValues_insert_fresh by done. apply Qcplus_nonneg.
  - apply (Hall k). apply lookup_insert_eq.
  - apply IH. intros j y Hj. apply (Hall j).
    rewrite lookup_insert_ne; [done|]. intros ->. congruence.
Qed.

Lemma filter_Forall {A} (P : A -> Prop) (f : A -> bool) (l : list A) :
  Forall P l -> Forall P (List.filter f l).
Proof.
  induction 1 as [|a l Ha _ IH]; [constructor|]. cbn.
  destruct (f a); [by constructor | done].
Qed.

Lemma costBreakdown_nonneg (items : list (BillItem Qc)) participants asg u amount :
  Forall (fun it => (0 <= item_price it)%Qc) items ->
  costBreakdown items participants asg !! u = Some amount -> (0 <= amount)%Qc.
Proof.
  intros Hprices. rewrite costBreakdown_lookup. apply accumulate_nonneg.
  - unfold initialEntry. case_bool_decide; [|done]. by intros y [= <-].
  - apply Forall_app. split.
    + unfold creditsOf. induction Hprices as [|i items Hi _ IH]; [constructor|].
      cbn [flat_map]. apply Forall_app. split; [|done].
      apply Forall_replicate.
      apply Qcdiv_nonneg; [done | apply Qc_of_nat_nonneg].
    + unfold sharedCreditsOf. destruct (_ && _); [|constructor].
      apply Forall_replicate. apply Qcdiv_nonneg; [|apply Qc_of_nat_nonneg].
      apply totalBillAmount_nonneg. by apply filter_Forall.
Qed.

(** X19.  When no price is negative, in exact arithmetic nobody is charged
    a negative amount and nobody more than the total of the bill, whatever
    the lists hold. *)
Theorem nobody_owes_more_than_the_bill (items : list (BillItem Qc))
    participants asg u amount :
  Forall (fun it => (0 <= item_price it)%Qc) items ->
  costBreakdown items participants asg !! u = Some amount ->
  (0 <= amount)%Qc /\ (amount <= totalBillAmount items)%Qc.
Proof.
  intros Hprices Hu. split; [by apply (costBreakdown_nonneg items participants asg u)|].
  assert (sumValues (costBreakdown items participants asg)
          <= totalBillAmount items)%Qc as Hsum.
  { destruct participants as [|p ps].
    - unfold costBreakdown.
      destruct (foldl (assignItem asg) _ items) as [costs ids] eqn:Hloop.
      pose proof (assignItems_sum asg items ∅ ∅) as Hsum.
      cbn [foldl] in Hloop. rewrite Hloop in Hsum. cbn [fst] in Hsum.
      cbn [length Nat.ltb Nat.leb]. rewrite andb_false_r, Hsum.
      change (sumValues ∅) with 0%Qc.
      assert (0 <= totalBillAmount (unassigned items asg))%Qc as Hun
        by (apply totalBillAmount_nonneg; by apply filter_Forall).
      apply Qcle_minus_iff.
      replace (totalBillAmount items
               + - (0 + (totalBillAmount items
                         - totalBillAmount (unassigned items asg))))%Qc
        with (totalBillAmount (unassigned items asg)) by ring.
      done.
    - rewrite costBreakdown_sum by (by right). apply Qcle_refl. }
  eapply Qcle_trans; [|exact Hsum].
  rewrite (sumValues_delete _ u amount) by done.
  assert (0 <= sumValues (delete u (costBreakdown items participants asg)))%Qc
    as Hrest.
  { apply sumValues_nonneg. intros k x Hk.
    apply lookup_delete_Some in Hk as [_ Hk].
    by apply (costBreakdown_nonneg items participants asg k). }
  replace amount with (amount + 0)%Qc at 1 by ring.
  apply Qcplus_le_compat; [apply Qcle_refl | done].
Qed.

Lemma nobody_owes_more_than_the_bill_witness :
  let items : list (BillItem Qc) :=
    [plainItem "1" (Q2Qc 10); plainItem "2" (Q2Qc (7 # 2))] in
  let asg : gmap string (list string) := <["1" := ["a"; "a"; "ghost"]]> ∅ in
  costBreakdown items [person "a"; person "b"] asg !! "a"
  = Some (Q2Qc (101 # 12))
  /\ (Q2Qc (101 # 12) <= totalBillAmount items)%Qc.
Proof.
  cbv zeta.
  assert (costBreakdown
            [plainItem "1" (Q2Qc 10); plainItem "2" (Q2Qc (7 # 2))]
            [person "a"; person "b"] (<["1" := ["a"; "a"; "ghost"]]> ∅) !! "a"
          = Some (Q2Qc (101 # 12))) as Hentry.
  { rewrite costBreakdown_lookup. vm_compute. f_equal; by apply Qc_is_canon. }
  split; [exact Hentry|].
  refine (proj2 (nobody_owes_more_than_the_bill _ _ _ _ _ _ Hentry)).
  repeat constructor; discriminate.
Defined.
